(** * Weather agent: extraction, validation and the two response bridges

    A shallow embedding of [src/agents/weather_agent.py].

    - Python [str] values are lists of Unicode code points; [strip],
      [in], [split], [join] and slicing are written out on them.
    - An exception that would leave a block of code is a value
      [inl e]; a normal result is [inr v].  [try]/[except] is a match.
    - The libraries the agent calls ([json], pydantic's scalar
      validators, the rendering of an exception as text) are the
      operations of the class [PyLib]; the agent's own code is
      translated on top of them.
    - [print] calls are left out: standard output is taken to accept
      what is printed. *)

From Stdlib Require Import ZArith NArith Ascii String DecimalString.
From stdpp Require Import base tactics option list numbers strings gmap.

Local Open Scope nat_scope.
Set Warnings "-register-all".

(** ** Text *)

Module Text.

(** A code point. *)
Definition char : Type := N.

(** A Python [str]. *)
Definition str : Type := list char.

(** The [str] of an ASCII literal of the source. *)
Definition lit (s : string) : str :=
  N_of_ascii <$> list_ascii_of_string s.

(** [c.isspace()]: the characters [str.strip()] removes. *)
Definition isspace (c : char) : bool :=
  ((9 <=? c) && (c <=? 13) || (28 <=? c) && (c <=? 32)
   || (c =? 133) || (c =? 160) || (c =? 5760)
   || (8192 <=? c) && (c <=? 8202)
   || (c =? 8232) || (c =? 8233) || (c =? 8239) || (c =? 8287)
   || (c =? 12288))%N.

Fixpoint lstrip (s : str) : str :=
  match s with
  | c :: s' => if isspace c then lstrip s' else s
  | [] => []
  end.

Definition rstrip (s : str) : str := reverse (lstrip (reverse s)).

(** [s.strip()] *)
Definition strip (s : str) : str := rstrip (lstrip s).

(** [s.startswith(p)] *)
Fixpoint startswith (p s : str) : bool :=
  match p, s with
  | [], _ => true
  | a :: p', b :: s' => bool_decide (a = b) && startswith p' s'
  | _ :: _, [] => false
  end.

(** [s.find(sep)], with [None] for Python's [-1]. *)
Fixpoint find (sep s : str) : option nat :=
  if startswith sep s then Some 0
  else match s with
       | [] => None
       | _ :: s' => S <$> find sep s'
       end.

(** [sep in s] *)
Definition contains (sep s : str) : bool :=
  match find sep s with Some _ => true | None => false end.

(** [s.split(sep)] for a non-empty [sep]: cut at each occurrence found
    from the left, restarting the search behind the occurrence.  [n]
    bounds the number of cuts. *)
Fixpoint split_upto (n : nat) (sep s : str) : list str :=
  match n with
  | 0 => [s]
  | S n' =>
      match find sep s with
      | None => [s]
      | Some i => take i s :: split_upto n' sep (drop (i + length sep) s)
      end
  end.

Definition split (sep s : str) : list str := split_upto (length s) sep s.

(** [sep.join(l)] *)
Fixpoint join (sep : str) (l : list str) : str :=
  match l with
  | [] => []
  | [x] => x
  | x :: l' => x ++ sep ++ join sep l'
  end.

End Text.

Import Text.

(** ** Values, exceptions and the libraries *)

(** What [json.loads] returns: [None], [bool], [int], [float], [str],
    [list] and [dict] with [str] keys.  A [dict] keeps its keys in
    insertion order and holds each key once; [dict_get] reads it.  A
    [float] is kept as the literal it was read from. *)
Inductive JSON : Type :=
| JNull
| JBool (b : bool)
| JInt (z : Z)
| JFloat (literal : str)
| JStr (s : str)
| JList (l : list JSON)
| JDict (kw : list (str * JSON)).

Fixpoint dict_get (k : str) (kw : list (str * JSON)) : option JSON :=
  match kw with
  | [] => None
  | (k', v) :: kw' => if decide (k' = k) then Some v else dict_get k kw'
  end.

Definition dict_keys (kw : list (str * JSON)) : list str := fst <$> kw.

(** The exception classes the agent meets. [JSONDecodeError] is the
    one class the first [except] clause names; every class here derives
    from [Exception]. *)
Inductive ExcClass : Type :=
| JSONDecodeError | ValueError | RecursionError | TypeError
| IndexError | ValidationError | PlainException.

#[global] Instance ExcClass_eq_dec : EqDecision ExcClass.
Proof. solve_decision. Defined.

(** A raised exception: its class and [str(e)]. *)
Record Exc : Type := Raise { exc_class : ExcClass; exc_str : str }.

(** A computation that returns or raises. *)
Definition M (A : Type) : Type := Exc + A.

#[global] Instance M_ret : MRet M := λ A x, inr x.
#[global] Instance M_bind : MBind M := λ A B f m,
  match m with inl e => inl e | inr x => f x end.

(** [l[i]] for [i >= 0] *)
Definition index {A} (l : list A) (i : nat) : M A :=
  match l !! i with
  | Some x => inr x
  | None => inl (Raise IndexError (lit "list index out of range"))
  end.

(** One entry of a pydantic validation error: where, and which kind. *)
Record LineError : Type := { loc : list (str + nat); err_type : str }.

(** The library calls of the agent.  [json_loads] may raise
    ([JSONDecodeError] on text that is not JSON); [int_validator] and
    [str_validator] are pydantic's validators of an [int] and a [str]
    field, giving the value or the kind of error; [validation_report]
    and [mapping_error] render [str(e)] for a [ValidationError] and
    for the [TypeError] of unpacking a [v] that is no mapping into
    keyword arguments. *)
Class PyLib : Type := {
  json_loads : str → M JSON;
  json_dumps : option nat → JSON → str;
  int_validator : JSON → str + Z;
  str_validator : JSON → str + str;
  validation_report : str → list LineError → str;
  mapping_error : JSON → str;
  int_validator_int : ∀ z, int_validator (JInt z) = inr z;
  str_validator_str : ∀ s, str_validator (JStr s) = inr s;
}.

(** ** The pydantic models (lines 45-63) *)

Record DailyWeather : Type := {
  day : Z;
  date : str;
  condition : str;
  highTemp : Z;
  lowTemp : Z;
  precipitation : Z;
  humidity : Z;
  windSpeed : Z;
  description : str;
}.

Record StructuredWeather : Type := {
  destination : str;
  forecast : list DailyWeather;
  travelAdvice : str;
  bestDays : list Z;
}.

Definition DailyWeather_fields : list str :=
  lit <$> ["day"; "date"; "condition"; "highTemp"; "lowTemp";
           "precipitation"; "humidity"; "windSpeed"; "description"]%string.

Definition StructuredWeather_fields : list str :=
  lit <$> ["destination"; "forecast"; "travelAdvice"; "bestDays"]%string.

Module Pydantic.
Section Validation.
Context `{PyLib}.

(** The outcome of validating one value: every error found, or the
    validated value. *)
Definition V (A : Type) : Type := list LineError + A.


Definition under (i : str + nat) (e : LineError) : LineError :=
  {| loc := i :: loc e; err_type := err_type e |}.

Definition at_loc {A} (i : str + nat) (r : V A) : V A :=
  match r with inl es => inl (under i <$> es) | inr a => inr a end.

(** Errors of all fields are collected, in field order. *)
Definition ap {A B} (f : V (A → B)) (x : V A) : V B :=
  match f, x with
  | inr g, inr a => inr (g a)
  | inl es, inr _ => inl es
  | inr _, inl es => inl es
  | inl es, inl es' => inl (es ++ es')
  end.

Definition scalar {A} (validator : JSON → str + A) (v : JSON) : V A :=
  match validator v with
  | inl t => inl [{| loc := []; err_type := t |}]
  | inr a => inr a
  end.

Definition int_schema : JSON → V Z := scalar int_validator.
Definition str_schema : JSON → V str := scalar str_validator.

Fixpoint list_items {A} (item : JSON → V A) (i : nat) (l : list JSON)
  : V (list A) :=
  match l with
  | [] => inr []
  | x :: l' => ap (ap (inr cons) (at_loc (inr i) (item x)))
                  (list_items item (S i) l')
  end.

(** [List[A]]: a list, each item validated. *)
Definition list_schema {A} (item : JSON → V A) (v : JSON) : V (list A) :=
  match v with
  | JList l => list_items item 0 l
  | _ => inl [{| loc := []; err_type := lit "list_type" |}]
  end.

(** A required field: missing is an error, extra keys are not looked
    at (pydantic's default [extra='ignore']). *)
Definition field {A} (name : string) (schema : JSON → V A)
    (kw : list (str * JSON)) : V A :=
  match dict_get (lit name) kw with
  | None => inl [{| loc := [inl (lit name)]; err_type := lit "missing" |}]
  | Some v => at_loc (inl (lit name)) (schema v)
  end.

Definition DailyWeather_kwargs (kw : list (str * JSON)) : V DailyWeather :=
  ap (ap (ap (ap (ap (ap (ap (ap (ap (inr Build_DailyWeather)
    (field "day" int_schema kw))
    (field "date" str_schema kw))
    (field "condition" str_schema kw))
    (field "highTemp" int_schema kw))
    (field "lowTemp" int_schema kw))
    (field "precipitation" int_schema kw))
    (field "humidity" int_schema kw))
    (field "windSpeed" int_schema kw))
    (field "description" str_schema kw).

(** A field of type [DailyWeather]: a dict, validated as the model. *)
Definition DailyWeather_schema (v : JSON) : V DailyWeather :=
  match v with
  | JDict kw => DailyWeather_kwargs kw
  | _ => inl [{| loc := []; err_type := lit "model_type" |}]
  end.

Definition StructuredWeather_kwargs (kw : list (str * JSON))
  : V StructuredWeather :=
  ap (ap (ap (ap (inr Build_StructuredWeather)
    (field "destination" str_schema kw))
    (field "forecast" (list_schema DailyWeather_schema) kw))
    (field "travelAdvice" str_schema kw))
    (field "bestDays" (list_schema int_schema) kw).

(** The constructor call of line 204, [structured_data] unpacked into
    keyword arguments. *)
Definition StructuredWeather_init (structured_data : JSON)
  : M StructuredWeather :=
  match structured_data with
  | JDict kw =>
      match StructuredWeather_kwargs kw with
      | inr w => inr w
      | inl es =>
          inl (Raise ValidationError
                 (validation_report (lit "StructuredWeather") es))
      end
  | v => inl (Raise TypeError (mapping_error v))
  end.

End Validation.

(** [model_dump()] of the two models: the fields in declaration order. *)
Definition DailyWeather_dump (d : DailyWeather) : JSON :=
  JDict [ (lit "day", JInt (day d));
          (lit "date", JStr (date d));
          (lit "condition", JStr (condition d));
          (lit "highTemp", JInt (highTemp d));
          (lit "lowTemp", JInt (lowTemp d));
          (lit "precipitation", JInt (precipitation d));
          (lit "humidity", JInt (humidity d));
          (lit "windSpeed", JInt (windSpeed d));
          (lit "description", JStr (description d)) ].

Definition model_dump (w : StructuredWeather) : JSON :=
  JDict [ (lit "destination", JStr (destination w));
          (lit "forecast", JList (DailyWeather_dump <$> forecast w));
          (lit "travelAdvice", JStr (travelAdvice w));
          (lit "bestDays", JList (JInt <$> bestDays w)) ].

End Pydantic.

Import Pydantic.

(** ** The inference events and the session store *)

(** A content part; [text] is [None] for a part that carries none. *)
Record Part : Type := { text : option str }.

(** [event.content]; [parts] may be [None] or empty. *)
Record Content : Type := { parts : option (list Part) }.

(** One event of the run: the value of [event.is_final_response()] and
    the content. *)
Record Event : Type := {
  is_final_response : bool;
  content : option Content;
}.

Record Session : Type := { id : str; state : list (str * JSON) }.

(** What [stream] yields: [{'is_task_complete': False, 'updates': u}]
    or [{'is_task_complete': True, 'content': c}]. *)
Inductive Item : Type :=
| Progress (updates : str)
| Complete (content : str).

Definition is_task_complete (item : Item) : bool :=
  match item with Complete _ => true | Progress _ => false end.

(** ** WeatherAgent (lines 66-233) *)

Module WeatherAgent.

Definition user_id : str := lit "remote_agent".

Definition get_processing_message : str :=
  lit "Checking weather forecasts and travel conditions...".

(** Truth value of an optional [str]: [None] and the empty string are
    false. *)
Definition truthy (t : option str) : bool :=
  match t with Some (_ :: _) => true | _ => false end.

Definition newline : str := lit (String (ascii_of_nat 10) EmptyString).

(** Lines 181-190. *)
Definition response_text (event : Event) : str :=
  match content event with
  | Some c =>
      match parts c with
      | Some ((p0 :: _) as ps) =>
          if truthy (text p0)
          then join newline
                 ((λ p, default [] (text p)) <$>
                    List.filter (λ p, truthy (text p)) ps)
          else []
      | _ => []
      end
  | None => []
  end.

Definition fence_json : str := lit "```json".
Definition fence : str := lit "```".

(** Lines 193-199: the text handed to the JSON parser. *)
Definition content_str (response_text : str) : M str :=
  let content_str := strip response_text in
  if contains fence_json content_str then
    a ← index (split fence_json content_str) 1;
    b ← index (split fence a) 0;
    mret (strip b)
  else if contains fence content_str then
    a ← index (split fence content_str) 1;
    b ← index (split fence a) 0;
    mret (strip b)
  else mret content_str.

Definition malformed_envelope (content_str : str) : JSON :=
  JDict [ (lit "error",
           JStr (lit "Failed to generate structured weather forecast"));
          (lit "raw_content", JStr (take 200 content_str)) ].

Definition validation_envelope (e : Exc) : JSON :=
  JDict [ (lit "error", JStr (lit "Validation failed: " ++ exc_str e)) ].

Section Agent.
Context `{PyLib}.

(** The body of the [try] (lines 203-207). *)
Definition try_body (content_str : str) : M str :=
  structured_data ← json_loads content_str;
  validated_weather ← StructuredWeather_init structured_data;
  mret (json_dumps (Some 2) (model_dump validated_weather)).

(** Lines 201-222: the [try] with its two [except] clauses. *)
Definition final_response (content_str : str) : str :=
  match try_body content_str with
  | inr r => r
  | inl e =>
      if decide (exc_class e = JSONDecodeError)
      then json_dumps None (malformed_envelope content_str)
      else json_dumps None (validation_envelope e)
  end.

(** The body of the loop (lines 180-233): the item yielded for one
    event of the run. *)
Definition on_event (event : Event) : M Item :=
  if is_final_response event then
    content_str ← content_str (response_text event);
    mret (Complete (final_response content_str))
  else mret (Progress get_processing_message).

(** An event whose item is a progress update. *)
Definition incomplete (event : Event) : Prop :=
  ∃ updates, on_event event = inr (Progress updates).

(** The inference engine: the events of one run. *)
Variable run_async : str → str → str → list Event.

(** Lines 152-178: the session is looked up, created when absent, and
    the run started.  The result is the store and the generator, held
    as the events it has not consumed yet. *)
Definition stream (query session_id : str) (sessions : gmap str Session)
  : gmap str Session * list Event :=
  let '(session, sessions) :=
    match sessions !! session_id with
    | Some session => (session, sessions)
    | None =>
        let session := {| id := session_id; state := [] |} in
        (session, <[session_id := session]> sessions)
    end in
  (sessions, run_async user_id (id session) query).

(** One step of the generator: the next item and the rest, or [None]
    when the run is over. *)
Definition next (pending : list Event) : option (M Item * list Event) :=
  match pending with
  | [] => None
  | event :: rest => Some (on_event event, rest)
  end.

(** Everything the generator yields when it is run to its end. *)
Fixpoint items (pending : list Event) : M (list Item) :=
  match pending with
  | [] => mret []
  | event :: rest =>
      item ← on_event event;
      more ← items rest;
      mret (item :: more)
  end.

End Agent.
End WeatherAgent.

(** ** WeatherAgentExecutor (lines 264-301) *)

(** The request context: the value of [get_user_input()], and the
    attribute [context_id], [None] when the context has none. *)
Record RequestContext : Type := {
  get_user_input : str;
  context_id : option str;
}.

(** The message [new_agent_text_message] builds. *)
Record Message : Type := { body : str }.

Definition new_agent_text_message (text : str) : Message :=
  {| body := text |}.

Module WeatherAgentExecutor.
Import WeatherAgent.

Section Executor.
Context `{PyLib}.
Variable run_async : str → str → str → list Event.

(** The [async for] of lines 289-292: items are taken one at a time;
    [break] leaves the rest of the run unread. *)
Fixpoint drain (pending : list Event) (final_content : str)
  : M (str * list Event) :=
  match pending with
  | [] => mret (final_content, [])
  | event :: rest =>
      item ← on_event event;
      match item with
      | Complete content => mret (content, rest)
      | Progress _ => drain rest final_content
      end
  end.

(** What [execute] leaves behind. *)
Record Outcome : Type := {
  event_queue : list Message;
  sessions : gmap str Session;
  unread : list Event;
}.

Definition execute (context : RequestContext) (event_queue : list Message)
    (sessions : gmap str Session) : M Outcome :=
  let query := get_user_input context in
  let session_id := default (lit "default_session") (context_id context) in
  let '(sessions, pending) := stream run_async query session_id sessions in
  '(final_content, unread) ← drain pending [];
  mret {| event_queue :=
            event_queue ++ [new_agent_text_message final_content];
          sessions := sessions;
          unread := unread |}.

Definition cancel (context : RequestContext) (event_queue : list Message)
  : M () :=
  inl (Raise PlainException (lit "cancel not supported")).

End Executor.
End WeatherAgentExecutor.

(** ** A reference library

    An executable instance of [PyLib], used to run the agent on
    concrete texts: a decoder and an encoder for JSON after Python's
    [json] module, and validators that accept a JSON integer for an
    [int] field and a JSON string for a [str] field.  The theorems
    about the agent hold for every instance. *)

Module Reference.

Definition ch (a : ascii) : char := N_of_ascii a.

(** The double quote. *)
Definition dquote : char := 34%N.

(** [s] without the prefix [p], when it starts with it. *)
Fixpoint eat (p s : str) : option str :=
  match p, s with
  | [], _ => Some s
  | a :: p', b :: s' => if decide (a = b) then eat p' s' else None
  | _ :: _, [] => None
  end.

(** The whitespace of the JSON grammar. *)
Definition is_ws (c : char) : bool :=
  bool_decide (c = 32 ∨ c = 9 ∨ c = 10 ∨ c = 13)%N.

Fixpoint skip_ws (s : str) : str :=
  match s with
  | c :: s' => if is_ws c then skip_ws s' else s
  | [] => []
  end.

Definition is_digit (c : char) : bool := ((48 <=? c) && (c <=? 57))%N.

Fixpoint digits (s : str) : str * str :=
  match s with
  | c :: s' =>
      if is_digit c then let '(d, r) := digits s' in (c :: d, r) else ([], s)
  | [] => ([], [])
  end.

Definition nat_of_digits (d : str) : N :=
  foldl (λ acc c, acc * 10 + (c - 48))%N 0%N d.

Definition hex_value (c : char) : option N :=
  if ((48 <=? c) && (c <=? 57))%N then Some (c - 48)%N
  else if ((97 <=? c) && (c <=? 102))%N then Some (c - 87)%N
  else if ((65 <=? c) && (c <=? 70))%N then Some (c - 55)%N
  else None.

(** Four hexadecimal digits. *)
Definition hex4 (s : str) : option (N * str) :=
  match s with
  | a :: b :: c :: d :: r =>
      a ← hex_value a; b ← hex_value b; c ← hex_value c; d ← hex_value d;
      Some (((a * 16 + b) * 16 + c) * 16 + d, r)%N
  | _ => None
  end.

Definition simple_escape (c : char) : option char :=
  if decide (c = dquote) then Some (dquote)
  else if decide (c = ch "\") then Some (ch "\")
  else if decide (c = ch "/") then Some (ch "/")
  else if decide (c = ch "b") then Some 8%N
  else if decide (c = ch "f") then Some 12%N
  else if decide (c = ch "n") then Some 10%N
  else if decide (c = ch "r") then Some 13%N
  else if decide (c = ch "t") then Some 9%N
  else None.

(** The body of a string literal up to its closing quote (strict
    mode: no raw control character). *)
Fixpoint scanstring (n : nat) (s : str) : option (str * str) :=
  match n with
  | 0 => None
  | S n' =>
      match s with
      | [] => None
      | c :: s' =>
          if decide (c = dquote) then Some ([], s')
          else if decide (c = ch "\") then
            match s' with
            | [] => None
            | e :: s'' =>
                if decide (e = ch "u") then
                  '(u, r) ← hex4 s'';
                  let low :=
                    if ((55296 <=? u) && (u <=? 56319))%N then
                      r1 ← eat [ch "\"; ch "u"] r;
                      '(u2, r2) ← hex4 r1;
                      if ((56320 <=? u2) && (u2 <=? 57343))%N
                      then Some ((65536 + (u - 55296) * 1024
                                  + (u2 - 56320))%N, r2)
                      else None
                    else None in
                  let '(cp, r) := default (u, r) low in
                  '(t, r') ← scanstring n' r;
                  Some (cp :: t, r')
                else
                  x ← simple_escape e;
                  '(t, r) ← scanstring n' s'';
                  Some (x :: t, r)
            end
          else if (c <? 32)%N then None
          else '(t, r) ← scanstring n' s'; Some (c :: t, r)
      end
  end.

(** A number: an integer when it has neither fraction nor exponent. *)
Definition scan_number (s : str) : option (JSON * str) :=
  let '(neg, s1) := match eat [ch "-"] s with
                    | Some r => (true, r)
                    | None => (false, s)
                    end in
  let '(int_part, s2) :=
    match s1 with
    | c :: r => if decide (c = ch "0") then ([c], r) else digits s1
    | [] => ([], [])
    end in
  match int_part with
  | [] => None
  | _ =>
      let '(frac, s3) :=
        match eat [ch "."] s2 with
        | Some r => match digits r with
                    | ([], _) => ([], s2)
                    | (d, r') => (ch "." :: d, r')
                    end
        | None => ([], s2)
        end in
      let '(exp, s4) :=
        match s3 with
        | e :: r =>
            if decide (e = ch "e" ∨ e = ch "E") then
              let '(sign, r1) :=
                match r with
                | g :: r' =>
                    if decide (g = ch "-" ∨ g = ch "+")
                    then ([g], r') else ([], r)
                | [] => ([], r)
                end in
              match digits r1 with
              | ([], _) => ([], s3)
              | (d, r') => (e :: sign ++ d, r')
              end
            else ([], s3)
        | [] => ([], s3)
        end in
      match frac, exp with
      | [], [] =>
          let z := Z.of_N (nat_of_digits int_part) in
          Some (JInt (if neg then - z else z)%Z, s4)
      | _, _ =>
          Some (JFloat ((if neg then [ch "-"] else []) ++ int_part
                        ++ frac ++ exp), s4)
      end
  end.

(** Storing a key: a repeated key keeps its place and takes the new
    value. *)
Fixpoint dict_set (k : str) (v : JSON) (kw : list (str * JSON))
  : list (str * JSON) :=
  match kw with
  | [] => [(k, v)]
  | (k', v') :: kw' =>
      if decide (k' = k) then (k, v) :: kw' else (k', v') :: dict_set k v kw'
  end.

Definition constant (s : str) : option (JSON * str) :=
  match eat (lit "null") s with Some r => Some (JNull, r) | None =>
  match eat (lit "true") s with Some r => Some (JBool true, r) | None =>
  match eat (lit "false") s with Some r => Some (JBool false, r) | None =>
  match eat (lit "NaN") s with Some r => Some (JFloat (lit "NaN"), r) | None =>
  match eat (lit "Infinity") s with
  | Some r => Some (JFloat (lit "Infinity"), r)
  | None =>
  match eat (lit "-Infinity") s with
  | Some r => Some (JFloat (lit "-Infinity"), r)
  | None => None
  end end end end end end.

(** One value at the head of [s], and the text behind it.  [n] bounds
    the nesting and the number of members. *)
Fixpoint scan_once (n : nat) (s : str) : option (JSON * str) :=
  match n with
  | 0 => None
  | S n' =>
      match s with
      | [] => None
      | c :: s' =>
          if decide (c = dquote) then
            '(t, r) ← scanstring (S (length s')) s'; Some (JStr t, r)
          else if decide (c = ch "{") then
            match skip_ws s' with
            | d :: r => if decide (d = ch "}") then Some (JDict [], r)
                        else scan_object n' (d :: r) []
            | [] => None
            end
          else if decide (c = ch "[") then
            match skip_ws s' with
            | d :: r => if decide (d = ch "]") then Some (JList [], r)
                        else scan_array n' (d :: r) []
            | [] => None
            end
          else match scan_number s with
               | Some r => Some r
               | None => constant s
               end
      end
  end
with scan_object (n : nat) (s : str) (acc : list (str * JSON))
  : option (JSON * str) :=
  match n with
  | 0 => None
  | S n' =>
      s1 ← eat [dquote] s;
      '(k, s2) ← scanstring (S (length s1)) s1;
      s3 ← eat [ch ":"] (skip_ws s2);
      '(v, s4) ← scan_once n' (skip_ws s3);
      let acc := dict_set k v acc in
      match skip_ws s4 with
      | d :: r =>
          if decide (d = ch "}") then Some (JDict acc, r)
          else if decide (d = ch ",") then scan_object n' (skip_ws r) acc
          else None
      | [] => None
      end
  end
with scan_array (n : nat) (s : str) (acc : list JSON)
  : option (JSON * str) :=
  match n with
  | 0 => None
  | S n' =>
      '(v, s1) ← scan_once n' s;
      match skip_ws s1 with
      | d :: r =>
          if decide (d = ch "]") then Some (JList (acc ++ [v]), r)
          else if decide (d = ch ",") then
            scan_array n' (skip_ws r) (acc ++ [v])
          else None
      | [] => None
      end
  end.

(** [json.loads(s)]: one value, whitespace around it, nothing else. *)
Definition loads (s : str) : M JSON :=
  match scan_once (S (length s)) (skip_ws s) with
  | Some (v, r) =>
      match skip_ws r with
      | [] => inr v
      | _ => inl (Raise JSONDecodeError (lit "Extra data"))
      end
  | None => inl (Raise JSONDecodeError (lit "Expecting value"))
  end.

(** [json.dumps]: the text of a string, every character outside the
    printable ASCII range escaped. *)
Definition hex_digit (d : N) : char :=
  (if d <? 10 then 48 + d else 87 + d)%N.

Definition u_escape (c : N) : str :=
  [ch "\"; ch "u"; hex_digit (c / 4096 mod 16); hex_digit (c / 256 mod 16);
   hex_digit (c / 16 mod 16); hex_digit (c mod 16)]%N.

Definition escape_char (c : char) : str :=
  if decide (c = dquote) then [ch "\"; dquote]
  else if decide (c = ch "\") then [ch "\"; ch "\"]
  else if decide (c = 10%N) then [ch "\"; ch "n"]
  else if decide (c = 13%N) then [ch "\"; ch "r"]
  else if decide (c = 9%N) then [ch "\"; ch "t"]
  else if decide (c = 8%N) then [ch "\"; ch "b"]
  else if decide (c = 12%N) then [ch "\"; ch "f"]
  else if ((32 <=? c) && (c <=? 126))%N then [c]
  else if (c <? 65536)%N then u_escape c
  else u_escape (55296 + (c - 65536) / 1024)
       ++ u_escape (56320 + (c - 65536) mod 1024).

Definition quote (s : str) : str :=
  dquote :: concat (escape_char <$> s) ++ [dquote].

Definition int_text (z : Z) : str :=
  lit (NilZero.string_of_int (Z.to_int z)).

(** The line break and indentation before an item at [level], when
    [indent] is given. *)
Definition break (indent : option nat) (level : nat) : str :=
  match indent with
  | Some i => 10%N :: replicate (i * level) 32%N
  | None => []
  end.

Definition item_separator (indent : option nat) (level : nat) : str :=
  match indent with
  | Some _ => ch "," :: break indent level
  | None => lit ", "
  end.

Fixpoint dumps_at (indent : option nat) (level : nat) (v : JSON) : str :=
  match v with
  | JNull => lit "null"
  | JBool true => lit "true"
  | JBool false => lit "false"
  | JInt z => int_text z
  | JFloat literal => literal
  | JStr s => quote s
  | JList [] => lit "[]"
  | JList l =>
      ch "[" :: break indent (S level)
      ++ join (item_separator indent (S level))
           (List.map (dumps_at indent (S level)) l)
      ++ break indent level ++ [ch "]"]
  | JDict [] => lit "{}"
  | JDict kw =>
      ch "{" :: break indent (S level)
      ++ join (item_separator indent (S level))
           ((fix members (kw : list (str * JSON)) : list str :=
               match kw with
               | [] => []
               | (k, v) :: kw' =>
                   (quote k ++ lit ": " ++ dumps_at indent (S level) v)
                   :: members kw'
               end) kw)
      ++ break indent level ++ [ch "}"]
  end.

Definition dumps (indent : option nat) (v : JSON) : str :=
  dumps_at indent 0 v.

Definition loc_text (l : list (str + nat)) : str :=
  join (lit ".")
    ((λ i, match i with
           | inl k => k
           | inr n => int_text (Z.of_nat n)
           end) <$> l).

Definition report (title : str) (errors : list LineError) : str :=
  int_text (Z.of_nat (length errors)) ++ lit " validation error(s) for "
  ++ title
  ++ concat ((λ e, 10%N :: loc_text (loc e) ++ lit ": " ++ err_type e)
               <$> errors).

Definition type_name (v : JSON) : str :=
  match v with
  | JNull => lit "NoneType"
  | JBool _ => lit "bool"
  | JInt _ => lit "int"
  | JFloat _ => lit "float"
  | JStr _ => lit "str"
  | JList _ => lit "list"
  | JDict _ => lit "dict"
  end.

Definition lib : PyLib := {|
  json_loads := loads;
  json_dumps := dumps;
  int_validator v :=
    match v with JInt z => inr z | _ => inl (lit "int_type") end;
  str_validator v :=
    match v with JStr s => inr s | _ => inl (lit "string_type") end;
  validation_report := report;
  mapping_error v :=
    lit "argument after ** must be a mapping, not " ++ type_name v;
  int_validator_int z := eq_refl;
  str_validator_str s := eq_refl;
|}.

End Reference.

(** ** Reading the text operations

    Notions used to state what the agent computes. *)

(** [sep] occurs in [s] at position [i]. *)
Definition occurs (sep s : str) (i : nat) : Prop :=
  take (length sep) (drop i s) = sep.

(** [s] up to the first occurrence of [sep], all of [s] when there is
    none. *)
Definition upto (sep s : str) : str :=
  match find sep s with Some j => take j s | None => s end.

(** A text that does not begin with whitespace. *)
Definition tight (s : str) : Prop :=
  match s with [] => True | c :: _ => isspace c = false end.

(** The text behind the first occurrence of [sep]. *)
Definition after (sep s : str) : option str :=
  i ← find sep s; Some (drop (i + length sep) s).

(** What lines 193-199 come to, in closed form: the text behind the
    first [```json] up to the next [```json], cut at the first [```]
    in it; or the text between the first [```] and the next; each
    trimmed; or the trimmed text. *)
Definition extracted (response_text : str) : str :=
  let t := strip response_text in
  match after WeatherAgent.fence_json t with
  | Some r =>
      strip (upto WeatherAgent.fence (upto WeatherAgent.fence_json r))
  | None =>
      match after WeatherAgent.fence t with
      | Some r => strip (upto WeatherAgent.fence r)
      | None => t
      end
  end.

(** ** The statements of the specification, as written *)

Module Spec.
Import WeatherAgent.

(** The text between the end of the first [opening] marker and the
    next [closing] marker. *)
Definition between (opening closing t : str) : option str :=
  r ← after opening t; j ← find closing r; Some (take j r).

(** Fence stripping as the specification words it. *)
Definition candidate (text : str) : option str :=
  let t := strip text in
  if contains fence_json t then between fence_json fence t
  else if contains fence t then between fence fence t
  else Some t.

(** The closing [```] found behind the opening marker is a marker of
    its own: no [```json] begins one or two characters into it. *)
Definition closing_is_clean (r : str) : Prop :=
  ∀ j, find fence r = Some j →
       find fence_json r ≠ Some (j + 1) ∧ find fence_json r ≠ Some (j + 2).

(** The content parts of an event. *)
Definition event_parts (event : Event) : list Part :=
  match content event with
  | Some c => default [] (parts c)
  | None => []
  end.

(** The texts of the parts that carry text, in order. *)
Definition part_texts (event : Event) : list str :=
  omap (λ p, if truthy (text p) then text p else None) (event_parts event).

(** The raw response text as the specification words it. *)
Definition raw_response_text (event : Event) : str :=
  join newline (part_texts event).

(** The guard of lines 182-186: the first part carries text. *)
Definition first_part_has_text (event : Event) : bool :=
  match event_parts event with
  | p0 :: _ => truthy (text p0)
  | [] => false
  end.

(** Key [name] of the object holds [v]. *)
Definition has (kw : list (str * JSON)) (name : string) (v : JSON) : Prop :=
  dict_get (lit name) kw = Some v.

(** [v] is a JSON object matching the DailyWeather schema, with the
    field values of [d]; further keys are allowed. *)
Definition DailyWeather_json (v : JSON) (d : DailyWeather) : Prop :=
  ∃ kw, v = JDict kw
    ∧ has kw "day" (JInt (day d))
    ∧ has kw "date" (JStr (date d))
    ∧ has kw "condition" (JStr (condition d))
    ∧ has kw "highTemp" (JInt (highTemp d))
    ∧ has kw "lowTemp" (JInt (lowTemp d))
    ∧ has kw "precipitation" (JInt (precipitation d))
    ∧ has kw "humidity" (JInt (humidity d))
    ∧ has kw "windSpeed" (JInt (windSpeed d))
    ∧ has kw "description" (JStr (description d)).

(** [v] is a JSON object matching the StructuredWeather schema, with
    the field values of [w]; further keys are allowed. *)
Definition StructuredWeather_json (v : JSON) (w : StructuredWeather) : Prop :=
  ∃ kw fs, v = JDict kw
    ∧ has kw "destination" (JStr (destination w))
    ∧ has kw "forecast" (JList fs)
    ∧ Forall2 DailyWeather_json fs (forecast w)
    ∧ has kw "travelAdvice" (JStr (travelAdvice w))
    ∧ has kw "bestDays" (JList (JInt <$> bestDays w)).

(** The keys of a JSON object. *)
Definition object_keys (v : JSON) : list str :=
  match v with JDict kw => dict_keys kw | _ => [] end.

End Spec.


(** ** Concrete inputs *)

Module Examples.

(** A literal in which ['] stands for the double quote. *)
Definition dq (s : string) : str :=
  (λ c, if decide (c = 39%N) then Reference.dquote else c) <$> lit s.

(** A final event with the given part texts. *)
Definition final_event (texts : list (option str)) : Event :=
  {| is_final_response := true;
     content := Some {| parts := Some ((λ t, {| text := t |}) <$> texts) |} |}.

(** An event that is not final. *)
Definition interim_event : Event :=
  {| is_final_response := false; content := None |}.

Definition tokyo_text : str := dq
"Here you go:
```json
{'destination':'Tokyo','forecast':[{'day':1,'date':'Dec 15','condition':'Sunny','highTemp':75,'lowTemp':60,'precipitation':10,'humidity':45,'windSpeed':8,'description':'Clear'}],'travelAdvice':'Pack light','bestDays':[1]}
```".

Definition tokyo_json : str := dq
"{'destination':'Tokyo','forecast':[{'day':1,'date':'Dec 15','condition':'Sunny','highTemp':75,'lowTemp':60,'precipitation':10,'humidity':45,'windSpeed':8,'description':'Clear'}],'travelAdvice':'Pack light','bestDays':[1]}".

Definition tokyo_day : DailyWeather :=
  {| day := 1; date := lit "Dec 15"; condition := lit "Sunny";
     highTemp := 75; lowTemp := 60; precipitation := 10; humidity := 45;
     windSpeed := 8; description := lit "Clear" |}.

Definition tokyo : StructuredWeather :=
  {| destination := lit "Tokyo"; forecast := [tokyo_day];
     travelAdvice := lit "Pack light"; bestDays := [1%Z] |}.

(** The same forecast with keys the schema does not know. *)
Definition tokyo_extra_json : str := dq
"{'units':'F','destination':'Tokyo','forecast':[{'day':1,'date':'Dec 15','condition':'Sunny','uv':9,'highTemp':75,'lowTemp':60,'precipitation':10,'humidity':45,'windSpeed':8,'description':'Clear'}],'travelAdvice':'Pack light','bestDays':[1],'source':null}".

(** What the reference decoder reads from it: the two unknown
    top-level keys and the unknown key of the forecast day are kept. *)
Definition tokyo_extra_value : JSON :=
  JDict [ (lit "units", JStr (lit "F"));
          (lit "destination", JStr (lit "Tokyo"));
          (lit "forecast", JList [JDict
             [ (lit "day", JInt 1);
               (lit "date", JStr (lit "Dec 15"));
               (lit "condition", JStr (lit "Sunny"));
               (lit "uv", JInt 9);
               (lit "highTemp", JInt 75);
               (lit "lowTemp", JInt 60);
               (lit "precipitation", JInt 10);
               (lit "humidity", JInt 45);
               (lit "windSpeed", JInt 8);
               (lit "description", JStr (lit "Clear")) ]]);
          (lit "travelAdvice", JStr (lit "Pack light"));
          (lit "bestDays", JList [JInt 1]);
          (lit "source", JNull) ].

(** Best days that are no day of the forecast and repeat; percentages
    outside 0-100. *)
Definition odd_json : str := dq
"{'destination':'Oslo','forecast':[{'day':1,'date':'Jan 2','condition':'Snow','highTemp':30,'lowTemp':20,'precipitation':250,'humidity':-5,'windSpeed':12,'description':'Cold'}],'travelAdvice':'Pack warm','bestDays':[7,7]}".

Definition odd_day : DailyWeather :=
  {| day := 1; date := lit "Jan 2"; condition := lit "Snow";
     highTemp := 30; lowTemp := 20; precipitation := 250; humidity := -5;
     windSpeed := 12; description := lit "Cold" |}.

Definition odd : StructuredWeather :=
  {| destination := lit "Oslo"; forecast := [odd_day];
     travelAdvice := lit "Pack warm"; bestDays := [7%Z; 7%Z] |}.


Definition not_json : str := lit "not json at all".

(** Behind the first [```json], a closing run of four backquotes runs
    into a second [```json]. *)
Definition overlap_text : str := lit "```json{}````json".

(** A fenced block with line breaks inside the fence. *)
Definition padded_text : str := lit "```json
{}
```".

(** A block fenced without a tag, with text around it. *)
Definition generic_text : str := lit "Sure:
```
{}
``` done".

(** No fence, whitespace around. *)
Definition bare_text : str := lit "  {}  ".

(** The first part carries no text, the second does. *)
Definition late_text_event : Event :=
  final_event [None; Some (lit "{}")].

End Examples.

(** ** Further notions and inputs *)

(** [c] is a contiguous piece of [s]. *)
Definition piece (c s : str) : Prop := ∃ pre post, s = pre ++ c ++ post.

(** The content of the first complete item of a list of items. *)
Definition first_complete (its : list Item) : option str :=
  match list_find (λ it, is_task_complete it = true) its with
  | Some (_, Complete content) => Some content
  | _ => None
  end.


(** A library whose decoder refuses integers of more than 4300 digits
    with a [ValueError], as [json.loads] does since Python 3.11 on a
    text that is otherwise well-formed; everything else is the
    reference library. *)
Module DigitLimit.

(** The first integer of [v], in reading order, with more than 4300
    digits. *)
Fixpoint long_int (v : JSON) : option Z :=
  match v with
  | JInt z => if (10 ^ 4300 <=? Z.abs z)%Z then Some z else None
  | JList l =>
      (fix first (l : list JSON) : option Z :=
         match l with
         | [] => None
         | x :: l' =>
             match long_int x with Some z => Some z | None => first l' end
         end) l
  | JDict kw =>
      (fix first (kw : list (str * JSON)) : option Z :=
         match kw with
         | [] => None
         | (_, x) :: kw' =>
             match long_int x with Some z => Some z | None => first kw' end
         end) kw
  | _ => None
  end.

Definition limit_message (z : Z) : str :=
  lit "Exceeds the limit (4300 digits) for integer string conversion: value has "
  ++ Reference.int_text (Z.of_nat (length (Reference.int_text (Z.abs z))))
  ++ lit " digits; use sys.set_int_max_str_digits() to increase the limit".

Definition loads (s : str) : M JSON :=
  match Reference.loads s with
  | inr v =>
      match long_int v with
      | Some z => inl (Raise ValueError (limit_message z))
      | None => inr v
      end
  | inl e => inl e
  end.

Definition lib : PyLib := {|
  json_loads := loads;
  json_dumps := Reference.dumps;
  int_validator := @int_validator Reference.lib;
  str_validator := @str_validator Reference.lib;
  validation_report := Reference.report;
  mapping_error := @mapping_error Reference.lib;
  int_validator_int z := eq_refl;
  str_validator_str s := eq_refl;
|}.

End DigitLimit.

(** ** Start-up (lines 236-261 and 304-328) *)

Module Main.
Import WeatherAgent.






End Main.

(** More inputs. *)
Module Inputs.

(** An integer of 4301 digits, as the whole answer. *)
Definition long_int_text : str := replicate 4301 49%N.



(** A final event without content. *)
Definition silent_event : Event :=
  {| is_final_response := true; content := None |}.



(** An engine whose run has no final event. *)
Definition endless_run (_ _ _ : str) : list Event :=
  [ Examples.interim_event; Examples.interim_event ].

End Inputs.

(** * Facts about the text operations *)

Module TextFacts.

Lemma startswith_take (p s : str) :
  startswith p s = true ↔ take (length p) s = p.
Proof.
  revert s. induction p as [|a p IH]; intros [|b s]; simpl; try done.
  rewrite andb_true_iff, bool_decide_eq_true, IH.
  split; [intros [-> ->]; done|]. intros [= -> ->]. done.
Qed.

Lemma find_unfold (sep s : str) :
  find sep s =
    if startswith sep s then Some 0
    else match s with [] => None | _ :: s' => S <$> find sep s' end.
Proof. by destruct s. Qed.

Lemma occurs_0 (sep s : str) : occurs sep s 0 ↔ startswith sep s = true.
Proof. unfold occurs. by rewrite startswith_take. Qed.

Lemma occurs_S (sep : str) c s i : occurs sep (c :: s) (S i) ↔ occurs sep s i.
Proof. done. Qed.

Lemma find_Some (sep s : str) i :
  find sep s = Some i ↔ occurs sep s i ∧ ∀ j, j < i → ¬ occurs sep s j.
Proof.
  revert i. induction s as [|c s IH]; intros i; rewrite find_unfold;
    destruct (startswith sep _) eqn:Hs.
  - apply occurs_0 in Hs. split.
    + intros [= <-]. split; [done | lia].
    + intros [_ Hmin]. destruct i; [done|]. destruct (Hmin 0); [lia | done].
  - split; [done|]. intros [Hi _]. exfalso.
    assert (sep = []) as -> by (unfold occurs in Hi; by destruct i, sep).
    discriminate Hs.
  - apply occurs_0 in Hs. split.
    + intros [= <-]. split; [done | lia].
    + intros [_ Hmin]. destruct i; [done|]. destruct (Hmin 0); [lia | done].
  - assert (¬ occurs sep (c :: s) 0) as H0
      by (rewrite occurs_0; congruence).
    split.
    + destruct (find sep s) as [i'|] eqn:Hf; [|done]. intros [= <-].
      destruct (proj1 (IH i') eq_refl) as [Hi Hmin]. split; [done|].
      intros [|j] Hj; [done|]. rewrite occurs_S. apply Hmin. lia.
    + intros [Hi Hmin]. destruct i as [|i]; [done|].
      rewrite occurs_S in Hi.
      assert (find sep s = Some i) as ->; [|done].
      apply IH. split; [done|]. intros j Hj. rewrite <-(occurs_S sep c).
      apply Hmin. lia.
Qed.

Lemma find_None (sep s : str) :
  find sep s = None ↔ ∀ j, ¬ occurs sep s j.
Proof.
  induction s as [|c s IH]; rewrite find_unfold;
    destruct (startswith sep _) eqn:Hs.
  - apply occurs_0 in Hs. split; [done|]. intros Hn. by destruct (Hn 0).
  - split; [|done]. intros _ j Hj.
    assert (sep = []) as -> by (unfold occurs in Hj; by destruct j, sep).
    discriminate Hs.
  - apply occurs_0 in Hs. split; [done|]. intros Hn. by destruct (Hn 0).
  - assert (¬ occurs sep (c :: s) 0) as H0
      by (rewrite occurs_0; congruence).
    destruct (find sep s) as [i|] eqn:Hf; simpl.
    + split; [done|]. intros Hn. apply find_Some in Hf as [Hi _].
      destruct (Hn (S i)). by rewrite occurs_S.
    + split; [|done]. intros _ [|j]; [done|]. rewrite occurs_S.
      by apply (proj1 IH).
Qed.

(** An occurrence somewhere means [find] succeeds, at or before it. *)
Lemma find_le (sep s : str) k :
  occurs sep s k → ∃ j, find sep s = Some j ∧ j ≤ k.
Proof.
  intros Hk. destruct (find sep s) as [j|] eqn:Hf.
  - exists j. split; [done|]. apply find_Some in Hf as [_ Hmin].
    destruct (decide (j ≤ k)); [done|]. destruct (Hmin k); [lia | done].
  - rewrite find_None in Hf. by destruct (Hf k).
Qed.

Lemma occurs_bound (sep s : str) i :
  sep ≠ [] → occurs sep s i → i + length sep ≤ length s.
Proof.
  intros Hne Hi. unfold occurs in Hi.
  assert (length (take (length sep) (drop i s)) = length sep) as Hl
    by by rewrite Hi.
  rewrite length_take, length_drop in Hl.
  assert (0 < length sep) by (destruct sep; [done | simpl; lia]). lia.
Qed.

Lemma occurs_split (sep s : str) i :
  occurs sep s i → s = take i s ++ sep ++ drop (i + length sep) s.
Proof.
  unfold occurs. intros Hi.
  rewrite <-(take_drop i s) at 1. f_equal.
  rewrite <-(take_drop (length sep) (drop i s)) at 1.
  by rewrite Hi, drop_drop.
Qed.

Lemma occurs_take (sep s : str) i k :
  i + length sep ≤ k → occurs sep (take k s) i ↔ occurs sep s i.
Proof.
  intros Hk. unfold occurs.
  replace k with (i + (k - i)) by lia.
  rewrite <-take_drop_commute, take_take.
  by replace (length sep `min` (k - i)) with (length sep) by lia.
Qed.

Lemma occurs_take_inv (sep s : str) i k :
  sep ≠ [] → occurs sep (take k s) i → i + length sep ≤ k ∧ occurs sep s i.
Proof.
  intros Hne Hi. pose proof (occurs_bound _ _ _ Hne Hi) as Hb.
  rewrite length_take in Hb.
  assert (i + length sep ≤ k) as Hk by lia.
  split; [done|]. by apply (occurs_take sep s i k).
Qed.

(** Cutting the text behind the first occurrence keeps it first. *)
Lemma find_take_Some (sep s : str) j k :
  find sep s = Some j → j + length sep ≤ k → find sep (take k s) = Some j.
Proof.
  rewrite !find_Some. intros [Hj Hmin] Hk. split.
  - by apply occurs_take.
  - intros j' Hj' Ho. apply (Hmin j' Hj'). apply (occurs_take sep s j' k); [lia | done].
Qed.

(** Cutting into the first occurrence, or before it, leaves none. *)
Lemma find_take_None (sep s : str) k :
  sep ≠ [] →
  (∀ j, find sep s = Some j → k < j + length sep) →
  find sep (take k s) = None.
Proof.
  intros Hne Hk. apply find_None. intros p Hp.
  apply occurs_take_inv in Hp as [Hpk Hp]; [|done].
  apply find_le in Hp as (j & Hj & Hle). specialize (Hk j Hj). lia.
Qed.

Lemma find_nil (sep : str) : sep ≠ [] → find sep [] = None.
Proof. by destruct sep. Qed.

Lemma find_bound (sep s : str) i :
  sep ≠ [] → find sep s = Some i → i + length sep ≤ length s.
Proof. intros Hne [Hi _]%find_Some. by apply occurs_bound. Qed.

Lemma contains_find (sep s : str) :
  contains sep s = true ↔ ∃ i, find sep s = Some i.
Proof.
  unfold contains. destruct (find sep s); split; eauto; try done.
  by intros [? ?].
Qed.

Lemma contains_false (sep s : str) :
  contains sep s = false ↔ find sep s = None.
Proof. unfold contains. by destruct (find sep s). Qed.

(** [split]: enough cuts are allowed for. *)
Lemma split_upto_enough (sep : str) n m s :
  sep ≠ [] → length s ≤ n → length s ≤ m →
  split_upto n sep s = split_upto m sep s.
Proof.
  intros Hne. revert m s. induction n as [|n IH]; intros [|m] s Hn Hm; simpl.
  - done.
  - destruct s; [|simpl in *; lia]. by rewrite find_nil.
  - destruct s; [|simpl in *; lia]. by rewrite find_nil.
  - destruct (find sep s) as [i|] eqn:Hf; [|done]. f_equal.
    pose proof (find_bound _ _ _ Hne Hf).
    assert (0 < length sep) by (destruct sep; [done | simpl; lia]).
    apply IH; rewrite length_drop; lia.
Qed.

Lemma split_not_found (sep s : str) : find sep s = None → split sep s = [s].
Proof. unfold split. intros Hf. destruct (length s); simpl; by rewrite ?Hf. Qed.

Lemma split_found (sep s : str) i :
  sep ≠ [] → find sep s = Some i →
  split sep s = take i s :: split sep (drop (i + length sep) s).
Proof.
  intros Hne Hf. unfold split at 1.
  pose proof (find_bound _ _ _ Hne Hf).
  assert (0 < length sep) by (destruct sep; [done | simpl; lia]).
  destruct (length s) as [|n] eqn:Hl; [lia|]. simpl. rewrite Hf. f_equal.
  apply split_upto_enough; [done| |done]. rewrite length_drop. lia.
Qed.

(** The first piece of a split. *)
Lemma split_head (sep s : str) :
  sep ≠ [] → split sep s !! 0 = Some (upto sep s).
Proof.
  intros Hne. unfold upto. destruct (find sep s) as [i|] eqn:Hf.
  - by rewrite (split_found _ _ i).
  - by rewrite split_not_found.
Qed.

(** The second piece, when the separator occurs. *)
Lemma split_second (sep s : str) i :
  sep ≠ [] → find sep s = Some i →
  split sep s !! 1 = Some (upto sep (drop (i + length sep) s)).
Proof.
  intros Hne Hf. rewrite (split_found _ _ i) by done. simpl.
  by apply split_head.
Qed.

Lemma upto_prefix (sep s : str) : upto sep s `prefix_of` s.
Proof. unfold upto. destruct (find sep s); [apply prefix_take | done]. Qed.

Lemma find_upto (sep s : str) : sep ≠ [] → find sep (upto sep s) = None.
Proof.
  intros Hne. unfold upto. destruct (find sep s) as [i|] eqn:Hf; [|done].
  apply find_take_None; [done|]. intros j Hj.
  assert (0 < length sep) by (destruct sep; [done | simpl; lia]).
  rewrite Hf in Hj. injection Hj as <-. lia.
Qed.

(** ** Trimming *)

Lemma lstrip_tight (s : str) : tight (lstrip s).
Proof.
  induction s as [|c s IH]; simpl; [done|].
  by destruct (isspace c) eqn:Hc.
Qed.

Lemma lstrip_id (s : str) : tight s → lstrip s = s.
Proof. destruct s as [|c s]; simpl; [done|]. by intros ->. Qed.

Lemma lstrip_app_tight (s : str) c :
  isspace c = false → ∃ s', lstrip (s ++ [c]) = s' ++ [c].
Proof.
  intros Hc. induction s as [|d s IH]; simpl.
  - rewrite Hc. by exists [].
  - destruct (isspace d); [done|]. by exists (d :: s).
Qed.

(** Trimming the end keeps a tight beginning. *)
Lemma rstrip_tight (s : str) : tight s → tight (rstrip s).
Proof.
  unfold rstrip. destruct s as [|c s]; [done|]. simpl. intros Hc.
  rewrite reverse_cons.
  destruct (lstrip_app_tight (reverse s) c Hc) as (s' & ->).
  by rewrite reverse_app.
Qed.

Lemma rstrip_idemp (s : str) : rstrip (rstrip s) = rstrip s.
Proof.
  unfold rstrip. rewrite reverse_involutive.
  by rewrite (lstrip_id (lstrip _)) by apply lstrip_tight.
Qed.

Lemma strip_idemp (s : str) : strip (strip s) = strip s.
Proof.
  unfold strip.
  rewrite (lstrip_id (rstrip _)) by apply rstrip_tight, lstrip_tight.
  apply rstrip_idemp.
Qed.

End TextFacts.

(** * Facts about the agent *)

Module AgentFacts.
Import WeatherAgent TextFacts.

Lemma fence_ne : fence ≠ [].
Proof. done. Qed.

Lemma fence_json_ne : fence_json ≠ [].
Proof. done. Qed.

Lemma index_Some {A} (l : list A) i x : l !! i = Some x → index l i = inr x.
Proof. unfold index. by intros ->. Qed.

(** Neither index of lines 197 and 199 is out of range: the block of
    lines 193-199 always produces its text. *)
Lemma content_str_extracted (text : str) :
  content_str text = inr (extracted text).
Proof.
  unfold content_str, extracted, after, contains.
  destruct (find fence_json (strip text)) as [i|] eqn:Hj; simpl.
  - rewrite (index_Some _ _ _ (split_second _ _ i fence_json_ne Hj)). simpl.
    by rewrite (index_Some _ _ _ (split_head fence _ fence_ne)).
  - destruct (find fence (strip text)) as [i|] eqn:Hf; simpl; [|done].
    rewrite (index_Some _ _ _ (split_second _ _ i fence_ne Hf)). simpl.
    rewrite (index_Some _ _ _ (split_head fence _ fence_ne)). simpl.
    unfold upto at 1. by rewrite find_upto by done.
Qed.

(** Where [```json] occurs, [```] occurs. *)
Lemma occurs_fence_json_fence (s : str) k :
  occurs fence_json s k → occurs fence s k.
Proof.
  unfold occurs. intros Hk.
  change (length fence) with (3 `min` length fence_json).
  by rewrite <-take_take, Hk.
Qed.

Lemma find_fence_json_fence (s : str) k :
  find fence_json s = Some k → ∃ j, find fence s = Some j ∧ j ≤ k.
Proof.
  intros [Hk _]%find_Some. by apply find_le, occurs_fence_json_fence.
Qed.

(** With a clean closing marker, cutting at the next [```json] first
    changes nothing. *)
Lemma upto_clean (r : str) :
  Spec.closing_is_clean r → upto fence (upto fence_json r) = upto fence r.
Proof.
  intros Hclean. unfold upto at 2.
  destruct (find fence_json r) as [k|] eqn:Hk; [|done].
  destruct (find_fence_json_fence _ _ Hk) as (j & Hj & Hle).
  destruct (Hclean j Hj) as [H1 H2].
  unfold upto. rewrite Hj.
  destruct (decide (j + 3 ≤ k)) as [Hfar|Hnear].
  - rewrite (find_take_Some _ _ j k Hj Hfar), take_take.
    by replace (j `min` k) with j by lia.
  - assert (k = j) as -> by (destruct (decide (k = j)); [done|];
      assert (k = j + 1 ∨ k = j + 2) as [->| ->] by lia; congruence).
    rewrite find_take_None; [done | apply fence_ne |].
    intros j' Hj'. rewrite Hj in Hj'. injection Hj' as <-.
    change (length fence) with 3. lia.
Qed.

Section WithLib.
Context `{PyLib}.

Lemma on_event_final (event : Event) :
  is_final_response event = true →
  on_event event =
    inr (Complete (final_response (extracted (response_text event)))).
Proof.
  intros Hf. unfold on_event. by rewrite Hf, content_str_extracted.
Qed.

Lemma on_event_progress (event : Event) :
  is_final_response event = false →
  on_event event = inr (Progress get_processing_message).
Proof. intros Hf. unfold on_event. by rewrite Hf. Qed.

(** No event makes the loop body raise. *)
Lemma on_event_returns (event : Event) : ∃ item, on_event event = inr item.
Proof.
  destruct (is_final_response event) eqn:Hf.
  - rewrite on_event_final by done. eauto.
  - rewrite on_event_progress by done. eauto.
Qed.

Lemma final_response_ok (c : str) v w :
  json_loads c = inr v → StructuredWeather_init v = inr w →
  final_response c = json_dumps (Some 2) (model_dump w).
Proof. intros Hv Hw. unfold final_response, try_body. by rewrite Hv; simpl; rewrite Hw. Qed.

Lemma final_response_malformed (c : str) e :
  json_loads c = inl e → exc_class e = JSONDecodeError →
  final_response c = json_dumps None (malformed_envelope c).
Proof.
  intros Hv He. unfold final_response, try_body. rewrite Hv. simpl.
  by rewrite decide_True.
Qed.



(** The payload is one of three serializations. *)
Lemma final_response_shape (c : str) :
  (∃ w, final_response c = json_dumps (Some 2) (model_dump w))
  ∨ final_response c = json_dumps None (malformed_envelope c)
  ∨ (∃ e, final_response c = json_dumps None (validation_envelope e)).
Proof.
  unfold final_response. destruct (try_body c) as [e|r] eqn:Htry.
  - destruct (decide (exc_class e = JSONDecodeError)); eauto.
  - left. unfold try_body in Htry.
    destruct (json_loads c) as [e|v]; [done|]. simpl in Htry.
    destruct (StructuredWeather_init v) as [e|w]; [done|].
    injection Htry as <-. eauto.
Qed.

End WithLib.
End AgentFacts.

(** * Facts about validation *)

Module ValidationFacts.
Import Spec.

Section WithLib.
Context `{PyLib}.

Lemma field_int kw name z :
  has kw name (JInt z) → field name int_schema kw = inr z.
Proof.
  unfold has, field, int_schema, scalar. intros ->. simpl.
  by rewrite int_validator_int.
Qed.

Lemma field_str kw name s :
  has kw name (JStr s) → field name str_schema kw = inr s.
Proof.
  unfold has, field, str_schema, scalar. intros ->. simpl.
  by rewrite str_validator_str.
Qed.

Lemma DailyWeather_schema_ok v d :
  DailyWeather_json v d → DailyWeather_schema v = inr d.
Proof.
  intros (kw & -> & H1 & H2 & H3 & H4 & H5 & H6 & H7 & H8 & H9).
  unfold DailyWeather_schema, DailyWeather_kwargs.
  rewrite (field_int _ _ _ H1), (field_str _ _ _ H2), (field_str _ _ _ H3),
    (field_int _ _ _ H4), (field_int _ _ _ H5), (field_int _ _ _ H6),
    (field_int _ _ _ H7), (field_int _ _ _ H8), (field_str _ _ _ H9).
  by destruct d.
Qed.

Lemma forecast_items_ok fs ds i :
  Forall2 DailyWeather_json fs ds →
  list_items DailyWeather_schema i fs = inr ds.
Proof.
  intros Hall. revert i.
  induction Hall as [|v d fs ds Hd _ IH]; intros i; simpl; [done|].
  by rewrite (DailyWeather_schema_ok _ _ Hd), IH.
Qed.

Lemma int_items_ok (zs : list Z) i :
  list_items int_schema i (JInt <$> zs) = inr zs.
Proof.
  revert i. induction zs as [|z zs IH]; intros i; simpl; [done|].
  unfold int_schema at 1, scalar. by rewrite int_validator_int, IH.
Qed.

(** A value matching the schema validates, to the value it spells. *)
Lemma StructuredWeather_init_ok v w :
  StructuredWeather_json v w → StructuredWeather_init v = inr w.
Proof.
  intros (kw & fs & -> & Hd & Hf & Hfs & Ha & Hb).
  unfold StructuredWeather_init, StructuredWeather_kwargs.
  rewrite (field_str _ _ _ Hd), (field_str _ _ _ Ha).
  unfold field at 1 2. unfold has in Hf, Hb. rewrite Hf, Hb. simpl.
  rewrite (forecast_items_ok _ _ _ Hfs), int_items_ok. simpl.
  by destruct w.
Qed.










End WithLib.
End ValidationFacts.

(** * Facts about the two bridges *)

Module BridgeFacts.
Import WeatherAgent WeatherAgentExecutor AgentFacts.

Section WithLib.
Context `{PyLib}.

Lemma incomplete_iff (event : Event) :
  incomplete event ↔ is_final_response event = false.
Proof.
  unfold incomplete. destruct (is_final_response event) eqn:Hf.
  - rewrite on_event_final by done. split; [by intros (? & ?) | done].
  - rewrite on_event_progress by done. split; eauto.
Qed.

Lemma complete_final (event : Event) content :
  on_event event = inr (Complete content) →
  is_final_response event = true
  ∧ content = final_response (extracted (response_text event)).
Proof.
  destruct (is_final_response event) eqn:Hf.
  - rewrite on_event_final by done. by intros [= <-].
  - by rewrite on_event_progress.
Qed.

Lemma items_cons_progress (event : Event) rest :
  is_final_response event = false →
  items (event :: rest) =
    (more ← items rest; mret (Progress get_processing_message :: more)).
Proof. intros Hf. simpl. by rewrite on_event_progress. Qed.

Lemma items_interim_then_final (pre : list Event) (f : Event) :
  Forall (λ e, is_final_response e = false) pre →
  is_final_response f = true →
  items (pre ++ [f]) =
    inr (replicate (length pre) (Progress get_processing_message)
         ++ [Complete (final_response (extracted (response_text f)))]).
Proof.
  intros Hpre Hf. induction Hpre as [|e pre He _ IH].
  - simpl. by rewrite on_event_final.
  - rewrite <-app_comm_cons, items_cons_progress by done. by rewrite IH.
Qed.

(** The loop of [execute] skips progress items and stops at the first
    complete one. *)
Lemma drain_first_complete (pre : list Event) f post final_content content :
  Forall incomplete pre → on_event f = inr (Complete content) →
  drain (pre ++ f :: post) final_content = inr (content, post).
Proof.
  intros Hpre Hf. induction Hpre as [|e pre (u & He) _ IH]; simpl.
  - by rewrite Hf.
  - by rewrite He.
Qed.

(** Without a complete item the loop runs the stream out and keeps
    its initial content. *)
Lemma drain_no_complete (pending : list Event) final_content :
  Forall incomplete pending →
  drain pending final_content = inr (final_content, []).
Proof.
  intros Hall. induction Hall as [|e pending (u & He) _ IH]; simpl; [done|].
  by rewrite He.
Qed.

Lemma drain_returns (pending : list Event) final_content :
  ∃ content rest, drain pending final_content = inr (content, rest).
Proof.
  induction pending as [|e pending IH]; simpl; [eauto|].
  destruct (on_event_returns e) as ([u|c] & ->); simpl; eauto.
Qed.

End WithLib.
End BridgeFacts.

(** * The claims *)

Import WeatherAgent WeatherAgentExecutor.
Import TextFacts AgentFacts ValidationFacts BridgeFacts.

(** C2, as stated, fails.  On [Examples.overlap_text] the text between
    the first [```json] and the next [```] is [{}], and the agent
    keeps [{}`]: it cuts at the next [```json] first.  On
    [Examples.padded_text] the text between the markers has a line
    break on either side, and the agent trims it. *)
Lemma C2_counterexample :
  (Spec.candidate Examples.overlap_text = Some (lit "{}")
   ∧ content_str Examples.overlap_text = inr (lit "{}`"))
  ∧ (Spec.candidate Examples.padded_text = Some (10%N :: lit "{}" ++ [10%N])
     ∧ content_str Examples.padded_text = inr (lit "{}")).
Proof. split; split; vm_compute; reflexivity. Qed.

(** C2, amended.  With [t] the trimmed text: if [t] contains
    [```json], the candidate is the text behind the first [```json] up
    to the next [```], or up to the end of [t] when no [```] follows,
    trimmed; this holds when no [```json] begins one or two characters
    into that next [```].  Else if [t] contains [```], the candidate is
    the text behind the first [```] up to the next [```], or up to the
    end of [t], trimmed.  Else the candidate is [t].  So, wherever
    the text between the markers exists as the specification words
    it and the closing marker is clean, the candidate is that text,
    trimmed.  The indexing never raises. *)
Theorem C2_fence_stripping (text : str) :
  (∀ r, after fence_json (strip text) = Some r →
        Spec.closing_is_clean r →
        content_str text = inr (strip (upto fence r)))
  ∧ (∀ r, contains fence_json (strip text) = false →
          after fence (strip text) = Some r →
          content_str text = inr (strip (upto fence r)))
  ∧ (contains fence_json (strip text) = false →
     contains fence (strip text) = false →
     content_str text = inr (strip text))
  ∧ (∀ c, Spec.candidate text = Some c →
          (∀ r, after fence_json (strip text) = Some r →
                Spec.closing_is_clean r) →
          content_str text = inr (strip c))
  ∧ ∃ c, content_str text = inr c.
Proof.
  assert (∀ r, after fence_json (strip text) = Some r →
               Spec.closing_is_clean r →
               content_str text = inr (strip (upto fence r))) as Hjson.
  { rewrite content_str_extracted. unfold extracted.
    intros r -> Hclean. by rewrite upto_clean. }
  assert (∀ r, contains fence_json (strip text) = false →
               after fence (strip text) = Some r →
               content_str text = inr (strip (upto fence r))) as Hgeneric.
  { rewrite content_str_extracted. unfold extracted.
    intros r Hno ->. apply contains_false in Hno. unfold after at 1.
    by rewrite Hno. }
  assert (contains fence_json (strip text) = false →
          contains fence (strip text) = false →
          content_str text = inr (strip text)) as Hplain.
  { rewrite content_str_extracted. unfold extracted.
    intros Hj Hf. apply contains_false in Hj, Hf. unfold after.
    by rewrite Hj, Hf. }
  split; [exact Hjson|]. split; [exact Hgeneric|]. split; [exact Hplain|].
  split; [|rewrite content_str_extracted; eauto].
  intros c Hc Hclean. unfold Spec.candidate, Spec.between in Hc.
  destruct (contains fence_json (strip text)) eqn:Hj.
  - destruct (after fence_json (strip text)) as [r|] eqn:Hr; [|done].
    simpl in Hc. destruct (find fence r) as [j|] eqn:Hfr; [|done].
    injection Hc as <-. rewrite (Hjson r) by auto.
    unfold upto. by rewrite Hfr.
  - destruct (contains fence (strip text)) eqn:Hf.
    + destruct (after fence (strip text)) as [r|] eqn:Hr; [|done].
      simpl in Hc. destruct (find fence r) as [j|] eqn:Hfr; [|done].
      injection Hc as <-. rewrite (Hgeneric r) by auto.
      unfold upto. by rewrite Hfr.
    + injection Hc as <-. by rewrite strip_idemp, Hplain.
Qed.

(** C2 at four texts: a tagged block with text before it, an untagged
    block, a text without fence, and a tagged block read through the
    wording of the specification. *)
Lemma C2_fence_stripping_witness :
  content_str Examples.tokyo_text = inr Examples.tokyo_json
  ∧ content_str Examples.generic_text = inr (lit "{}")
  ∧ content_str Examples.bare_text = inr (lit "{}")
  ∧ content_str Examples.padded_text = inr (lit "{}").
Proof.
  split; [|split; [|split]].
  - refine (proj1 (C2_fence_stripping Examples.tokyo_text)
              (drop 20 (strip Examples.tokyo_text)) _ _).
    + vm_compute. reflexivity.
    + intros j Hj. vm_compute in Hj. injection Hj as <-.
      split; vm_compute; discriminate.
  - refine (proj1 (proj2 (C2_fence_stripping Examples.generic_text))
              (drop 9 (strip Examples.generic_text)) _ _).
    + vm_compute. reflexivity.
    + vm_compute. reflexivity.
  - refine (proj1 (proj2 (proj2 (C2_fence_stripping Examples.bare_text)))
              _ _).
    + vm_compute. reflexivity.
    + vm_compute. reflexivity.
  - refine (proj1 (proj2 (proj2 (proj2
              (C2_fence_stripping Examples.padded_text))))
              (10%N :: lit "{}" ++ [10%N]) _ _).
    + vm_compute. reflexivity.
    + intros r Hr. vm_compute in Hr. injection Hr as <-.
      intros j Hj. vm_compute in Hj. injection Hj as <-.
      split; vm_compute; discriminate.
Defined.

Lemma kept_texts (ps : list Part) :
  (λ p, default [] (text p)) <$> List.filter (λ p, truthy (text p)) ps
  = omap (λ p, if truthy (text p) then text p else None) ps.
Proof.
  induction ps as [|p ps IH]; [done|]. simpl.
  destruct (text p) as [[|c s]|] eqn:Ht; simpl; rewrite ?Ht; simpl;
    [exact IH | f_equal; exact IH | exact IH].
Qed.

(** C5, as stated, fails.  The event [Examples.late_text_event] has
    two parts, the first without text and the second with the text
    [{}]: joining the part texts gives [{}], the agent's raw response
    text is empty. *)
Lemma C5_counterexample :
  Spec.raw_response_text Examples.late_text_event = lit "{}"
  ∧ response_text Examples.late_text_event = [].
Proof. split; vm_compute; reflexivity. Qed.

(** C5, amended.  When the first content part of the event carries
    text, the raw response text is the texts of the parts that carry
    text, in order, joined by newlines; otherwise, and so for an event
    with no textual parts, it is the empty string. *)
Theorem C5_response_text (event : Event) :
  response_text event =
    (if Spec.first_part_has_text event
     then join newline (Spec.part_texts event) else [])
  ∧ (Spec.part_texts event = [] → response_text event = []).
Proof.
  assert (response_text event =
            if Spec.first_part_has_text event
            then join newline (Spec.part_texts event) else []) as Heq.
  { unfold response_text, Spec.first_part_has_text, Spec.part_texts,
      Spec.event_parts.
    destruct (content event) as [[[[|p0 ps]|]]|]; try done.
    cbn [default from_option Datatypes.id parts].
    destruct (truthy (text p0)); [|done]. f_equal. apply kept_texts. }
  split; [done|]. intros Hnone. rewrite Heq, Hnone.
  by destruct (Spec.first_part_has_text event).
Qed.

(** C5 at an event whose two parts carry no text. *)
Lemma C5_response_text_witness :
  response_text (Examples.final_event [None; Some []]) = [].
Proof.
  refine (proj2 (C5_response_text (Examples.final_event [None; Some []])) _).
  reflexivity.
Defined.

(** C8.  For every request context and event queue, [cancel] raises
    the exception [Exception('cancel not supported')]; it never
    returns. *)
Theorem C8_cancel_raises (context : RequestContext)
    (event_queue : list Message) :
  cancel context event_queue
    = inl (Raise PlainException (lit "cancel not supported"))
  ∧ ∀ r, cancel context event_queue ≠ inr r.
Proof. split; [done|]. by intros r. Qed.

(** What [model_dump] gives spells the value it was given. *)
Lemma model_dump_json (w : StructuredWeather) :
  Spec.StructuredWeather_json (model_dump w) w.
Proof.
  exists [ (lit "destination", JStr (destination w));
           (lit "forecast", JList (DailyWeather_dump <$> forecast w));
           (lit "travelAdvice", JStr (travelAdvice w));
           (lit "bestDays", JList (JInt <$> bestDays w)) ],
         (DailyWeather_dump <$> forecast w).
  repeat split; try reflexivity.
  induction (forecast w) as [|d ds IH]; constructor; [|done].
  eexists. repeat split; reflexivity.
Qed.




(** C6.  When the run that [stream] starts yields N events that are
    not final and then one final event, the generator yields N
    progress items, each with the fixed message of
    [get_processing_message], and then one complete item, in this
    order; with N = 0, the complete item alone. *)
Theorem C6_stream_items `{PyLib} (run_async : str → str → str → list Event)
    (query session_id : str) (sessions : gmap str Session)
    (pre : list Event) (f : Event) :
  (stream run_async query session_id sessions).2 = pre ++ [f] →
  Forall (λ e, is_final_response e = false) pre →
  is_final_response f = true →
  ∃ payload,
    items (stream run_async query session_id sessions).2
      = inr (replicate (length pre) (Progress get_processing_message)
             ++ [Complete payload])
    ∧ (pre = [] →
       items (stream run_async query session_id sessions).2
         = inr [Complete payload]).
Proof.
  intros -> Hpre Hf. eexists. split.
  - by apply items_interim_then_final.
  - intros ->. by rewrite (items_interim_then_final []).
Qed.

(** C7.  [execute] always returns, with one message added to the
    queue.  When the stream holds a complete item, the items before
    the first one being progress items, the body of that message is
    the content of the first complete item, whatever the progress
    items were, and the events behind it are left unread.  That
    content is the serialization of a validated StructuredWeather or
    of one of the two error envelopes. *)
Theorem C7_execute `{PyLib} (run_async : str → str → str → list Event)
    (context : RequestContext) (queue : list Message)
    (sessions : gmap str Session) :
  ∃ out, execute run_async context queue sessions = inr out
    ∧ (∃ m, event_queue out = queue ++ [m])
    ∧ ∀ pre f post content,
        (stream run_async (get_user_input context)
           (default (lit "default_session") (context_id context))
           sessions).2 = pre ++ f :: post →
        Forall incomplete pre →
        on_event f = inr (Complete content) →
        event_queue out = queue ++ [new_agent_text_message content]
        ∧ unread out = post
        ∧ ((∃ w, content = json_dumps (Some 2) (model_dump w))
           ∨ (∃ c, content = json_dumps None (malformed_envelope c))
           ∨ (∃ e, content = json_dumps None (validation_envelope e))).
Proof.
  unfold execute.
  destruct (stream run_async _ _ sessions) as [sessions' pending] eqn:Hs.
  destruct (drain_returns pending []) as (c & rest & Hd).
  rewrite Hd. simpl. eexists. split; [done|]. simpl. split; [eauto|].
  intros pre f post content -> Hpre Hf.
  rewrite (drain_first_complete pre f post [] content) in Hd by done.
  injection Hd as <- <-. split; [done|]. split; [done|].
  apply complete_final in Hf as [_ ->].
  destruct (final_response_shape (extracted (response_text f)))
    as [? | [? | ?]]; eauto.
Qed.

(** C9.  The schema checks neither that best days are days of the
    forecast, nor that they are distinct, nor that percentages lie in
    0-100: the text [Examples.odd_json] is well-formed JSON with
    every required field of the right kind, best days [7, 7] against a
    forecast whose only day is 1, precipitation 250 and humidity -5,
    and validation returns the StructuredWeather value with these
    fields; the agent answers with its serialization. *)
Theorem C9_no_integrity_check `{PyLib} :
  Reference.loads Examples.odd_json = inr (model_dump Examples.odd)
  ∧ Spec.StructuredWeather_json (model_dump Examples.odd) Examples.odd
  ∧ StructuredWeather_init (model_dump Examples.odd) = inr Examples.odd
  ∧ (7%Z ∈ bestDays Examples.odd
     ∧ (7%Z ∉ day <$> forecast Examples.odd)
     ∧ ¬ NoDup (bestDays Examples.odd))
  ∧ Forall (λ d, ¬ (0 ≤ precipitation d ≤ 100)%Z
                 ∧ ¬ (0 ≤ humidity d ≤ 100)%Z) (forecast Examples.odd)
  ∧ @on_event Reference.lib (Examples.final_event [Some Examples.odd_json])
    = inr (Complete (Reference.dumps (Some 2) (model_dump Examples.odd))).
Proof.
  split; [vm_compute; reflexivity|].
  split; [apply model_dump_json|].
  split; [apply StructuredWeather_init_ok, model_dump_json|].
  split.
  { split; [apply list_elem_of_here|]. split.
    - simpl. by intros [=]%list_elem_of_singleton.
    - intros Hnd. apply NoDup_cons in Hnd as [Hnot _].
      apply Hnot, list_elem_of_here. }
  split.
  { repeat constructor; simpl; lia. }
  vm_compute. reflexivity.
Qed.

(** C10.  For every final event whose text parses to a JSON object
    with all required StructuredWeather fields of the right kind,
    whatever further keys it or its forecast elements hold,
    validation returns the value of the required fields, and the
    payload is the serialization of an object with the declared keys
    only: no further key of the input is among them. *)
Theorem C10_extra_fields_ignored `{PyLib} (event : Event) (c : str)
    (v : JSON) (w : StructuredWeather) :
  is_final_response event = true →
  content_str (response_text event) = inr c →
  json_loads c = inr v →
  Spec.StructuredWeather_json v w →
  StructuredWeather_init v = inr w
  ∧ on_event event = inr (Complete (json_dumps (Some 2) (model_dump w)))
  ∧ Spec.object_keys (model_dump w) = StructuredWeather_fields
  ∧ Forall (λ d, Spec.object_keys (DailyWeather_dump d) = DailyWeather_fields)
      (forecast w)
  ∧ ∀ k, k ∈ Spec.object_keys v → k ∉ StructuredWeather_fields →
         k ∉ Spec.object_keys (model_dump w).
Proof.
  intros Hf Hc Hv Hw. rewrite content_str_extracted in Hc.
  injection Hc as <-.
  pose proof (StructuredWeather_init_ok _ _ Hw) as Hinit.
  split; [done|]. split.
  { by rewrite on_event_final, (final_response_ok _ v w). }
  split; [done|]. split; [by apply Forall_forall|].
  by intros k _ Hk.
Qed.

(** ** The theorems at concrete inputs *)




(** C6 at two interim events before the final one, and at the final
    event alone. *)
Lemma C6_stream_items_witness :
  (∃ payload,
     @items Reference.lib
       [Examples.interim_event; Examples.interim_event;
        Examples.final_event [Some Examples.tokyo_text]]
     = inr [Progress get_processing_message; Progress get_processing_message;
            Complete payload])
  ∧ (∃ payload,
       @items Reference.lib [Examples.final_event [Some Examples.tokyo_text]]
       = inr [Complete payload]).
Proof.
  split.
  - destruct (@C6_stream_items Reference.lib
                (λ _ _ _, [Examples.interim_event; Examples.interim_event;
                           Examples.final_event [Some Examples.tokyo_text]])
                (lit "Weather in Tokyo?") (lit "s1") ∅
                [Examples.interim_event; Examples.interim_event]
                (Examples.final_event [Some Examples.tokyo_text]))
      as (payload & Hitems & _).
    + reflexivity.
    + repeat constructor.
    + reflexivity.
    + exists payload. exact Hitems.
  - destruct (@C6_stream_items Reference.lib
                (λ _ _ _, [Examples.final_event [Some Examples.tokyo_text]])
                (lit "Weather in Tokyo?") (lit "s1") ∅ []
                (Examples.final_event [Some Examples.tokyo_text]))
      as (payload & _ & Halone).
    + reflexivity.
    + constructor.
    + reflexivity.
    + exists payload. apply Halone. reflexivity.
Defined.

(** C7 at a run of an interim event, a final event and one more
    event, which stays unread. *)
Lemma C7_execute_witness :
  ∃ out,
    @execute Reference.lib
      (λ _ _ _, [Examples.interim_event;
                 Examples.final_event [Some Examples.not_json];
                 Examples.interim_event])
      {| get_user_input := lit "Weather in Tokyo?"; context_id := None |}
      [] ∅ = inr out
    ∧ event_queue out = [new_agent_text_message (Examples.dq
        "{'error': 'Failed to generate structured weather forecast', 'raw_content': 'not json at all'}")]
    ∧ unread out = [Examples.interim_event].
Proof.
  destruct (@C7_execute Reference.lib
              (λ _ _ _, [Examples.interim_event;
                         Examples.final_event [Some Examples.not_json];
                         Examples.interim_event])
              {| get_user_input := lit "Weather in Tokyo?";
                 context_id := None |} [] ∅)
    as (out & Hout & _ & Hbody).
  exists out. split; [exact Hout|].
  destruct (Hbody [Examples.interim_event]
              (Examples.final_event [Some Examples.not_json])
              [Examples.interim_event]
              (Examples.dq
        "{'error': 'Failed to generate structured weather forecast', 'raw_content': 'not json at all'}"))
    as (Hqueue & Hunread & _).
  - reflexivity.
  - repeat constructor. exists get_processing_message. reflexivity.
  - vm_compute. reflexivity.
  - split; [exact Hqueue | exact Hunread].
Defined.

(** C10 at the Tokyo object with three unknown keys. *)
Lemma C10_extra_fields_ignored_witness :
  @on_event Reference.lib
    (Examples.final_event [Some Examples.tokyo_extra_json])
  = inr (Complete (Reference.dumps (Some 2) (model_dump Examples.tokyo)))
  ∧ lit "units" ∉ Spec.object_keys (model_dump Examples.tokyo).
Proof.
  destruct (@C10_extra_fields_ignored Reference.lib
              (Examples.final_event [Some Examples.tokyo_extra_json])
              Examples.tokyo_extra_json Examples.tokyo_extra_value
              Examples.tokyo)
    as (_ & Hitem & _ & _ & Hkeys).
  - reflexivity.
  - vm_compute. reflexivity.
  - vm_compute. reflexivity.
  - eexists _, _. repeat split; try reflexivity.
    repeat constructor. eexists. repeat split; reflexivity.
  - split; [exact Hitem|]. apply Hkeys.
    + apply list_elem_of_here.
    + apply (bool_decide_unpack _). vm_compute. exact I.
Defined.

(** ** The examples of the specification, run *)

(** The fenced Tokyo answer validates; decoding the payload gives the
    three top-level fields and the nine fields of the forecast day. *)
Example tokyo_round_trip :
  ∃ payload,
    @on_event Reference.lib (Examples.final_event [Some Examples.tokyo_text])
      = inr (Complete payload)
    ∧ Reference.loads payload = inr (model_dump Examples.tokyo).
Proof.
  exists (Reference.dumps (Some 2) (model_dump Examples.tokyo)).
  split; vm_compute; reflexivity.
Qed.

(** A part without text after the first is skipped; the rest are
    joined by newlines. *)
Example response_text_joins :
  response_text
    (Examples.final_event [Some (lit "a"); None; Some []; Some (lit "b")])
  = lit "a" ++ newline ++ lit "b".
Proof. reflexivity. Qed.

(** [split] cuts at the occurrences found from the left: behind the
    first [```json], a run of five backquotes before [json] is cut at
    its last three. *)
Example split_overlapping :
  split fence_json (lit "```jsonx`````json y```")
  = [[]; lit "x``"; lit " y```"].
Proof. vm_compute. reflexivity. Qed.

(** Without a closing fence the rest of the text is taken. *)
Example unclosed_fence :
  content_str (lit "```json
{} ") = inr (lit "{}").
Proof. vm_compute. reflexivity. Qed.

(** * Further properties of the code *)

(** ** Pieces of a text *)

Module PieceFacts.

Lemma piece_refl (s : str) : piece s s.
Proof. exists [], []. by rewrite app_nil_r. Qed.

Lemma piece_trans (a b c : str) : piece a b → piece b c → piece a c.
Proof.
  intros (p1 & q1 & ->) (p2 & q2 & ->).
  exists (p2 ++ p1), (q1 ++ q2). by rewrite <-!(assoc_L (++)).
Qed.

Lemma piece_take (s : str) n : piece (take n s) s.
Proof. exists [], (drop n s). simpl. by rewrite take_drop. Qed.

Lemma piece_drop (s : str) n : piece (drop n s) s.
Proof. exists (take n s), []. by rewrite app_nil_r, take_drop. Qed.

Lemma piece_length (c s : str) : piece c s → length c ≤ length s.
Proof. intros (p & q & ->). rewrite !length_app. lia. Qed.

Lemma piece_lstrip (s : str) : piece (lstrip s) s.
Proof.
  induction s as [|c s IH]; simpl; [apply piece_refl|].
  destruct (isspace c); [|apply piece_refl].
  apply (piece_trans _ s); [done|]. apply (piece_drop (c :: s) 1).
Qed.

Lemma piece_reverse (c s : str) : piece c s → piece (reverse c) (reverse s).
Proof.
  intros (p & q & ->). exists (reverse q), (reverse p).
  by rewrite !reverse_app, <-(assoc_L (++)).
Qed.

Lemma piece_rstrip (s : str) : piece (rstrip s) s.
Proof.
  unfold rstrip. rewrite <-(reverse_involutive s) at 2.
  apply piece_reverse, piece_lstrip.
Qed.

Lemma piece_strip (s : str) : piece (strip s) s.
Proof.
  unfold strip. eapply piece_trans; [apply piece_rstrip | apply piece_lstrip].
Qed.

Lemma piece_upto (sep s : str) : piece (upto sep s) s.
Proof. unfold upto. destruct (find sep s); [apply piece_take | apply piece_refl]. Qed.

(** An occurrence in a piece is an occurrence in the whole. *)
Lemma occurs_piece (sep pre c post : str) i :
  sep ≠ [] → occurs sep c i → occurs sep (pre ++ c ++ post) (length pre + i).
Proof.
  intros Hne Hi. pose proof (occurs_bound _ _ _ Hne Hi) as Hb.
  unfold occurs in *.
  rewrite drop_app_add, drop_app_le by lia.
  rewrite take_app_le by (rewrite length_drop; lia). done.
Qed.

(** A piece of a text without [sep] is without [sep]. *)
Lemma find_piece_None (sep c s : str) :
  sep ≠ [] → piece c s → find sep s = None → find sep c = None.
Proof.
  intros Hne (pre & post & ->) Hs. apply find_None. intros i Hi.
  rewrite find_None in Hs. apply (Hs (length pre + i)).
  by apply occurs_piece.
Qed.

End PieceFacts.

(** ** The text handed to the parser (lines 193-199) *)

Module CandidateFacts.
Import PieceFacts.

(** Either a fence was found, and the candidate is cut out of a piece
    behind it, or there is none, and the candidate is the trimmed
    text. *)
Lemma extracted_cases (text : str) :
  (∃ x, extracted text = strip (upto fence x)
        ∧ piece x (strip text)
        ∧ length x + 3 ≤ length (strip text)
        ∧ contains fence (strip text) = true)
  ∨ (extracted text = strip text ∧ find fence (strip text) = None).
Proof.
  unfold extracted, after.
  destruct (find fence_json (strip text)) as [i|] eqn:Hj; simpl.
  - left. exists (upto fence_json (drop (i + length fence_json) (strip text))).
    pose proof (find_bound _ _ _ fence_json_ne Hj) as Hb.
    change (length fence_json) with 7 in *.
    destruct (find_fence_json_fence _ _ Hj) as (j & Hf & _).
    split; [done|]. split; [|split].
    + eapply piece_trans; [apply piece_upto | apply piece_drop].
    + pose proof (piece_length _ _
        (piece_upto fence_json (drop (i + 7) (strip text)))) as Hl.
      rewrite length_drop in Hl. lia.
    + unfold contains. by rewrite Hf.
  - destruct (find fence (strip text)) as [i|] eqn:Hf; simpl.
    + left. exists (drop (i + length fence) (strip text)).
      pose proof (find_bound _ _ _ fence_ne Hf) as Hb.
      change (length fence) with 3 in *.
      split; [done|]. split; [apply piece_drop|]. split.
      * rewrite length_drop. lia.
      * unfold contains. by rewrite Hf.
    + by right.
Qed.

Lemma find_fence_None_json (s : str) :
  find fence s = None → find fence_json s = None.
Proof.
  intros Hf. destruct (find fence_json s) as [k|] eqn:Hk; [|done].
  destruct (find_fence_json_fence _ _ Hk) as (j & Hj & _). congruence.
Qed.

Lemma extracted_fence_free (text : str) :
  find fence (extracted text) = None.
Proof.
  destruct (extracted_cases text) as [(x & -> & _) | [-> Hf]].
  - eapply (find_piece_None _ _ _ fence_ne); [apply piece_strip|].
    apply find_upto, fence_ne.
  - done.
Qed.

Lemma extracted_trimmed (text : str) : strip (extracted text) = extracted text.
Proof.
  destruct (extracted_cases text) as [(x & -> & _) | [-> _]];
    apply strip_idemp.
Qed.

Lemma extracted_piece (text : str) : piece (extracted text) text.
Proof.
  destruct (extracted_cases text) as [(x & -> & Hx & _) | [-> _]].
  - eapply piece_trans; [apply piece_strip|].
    eapply piece_trans; [apply piece_upto|].
    eapply piece_trans; [exact Hx | apply piece_strip].
  - apply piece_strip.
Qed.

(** A trimmed text without fence is its own candidate. *)
Lemma extracted_plain (c : str) :
  strip c = c → find fence c = None → extracted c = c.
Proof.
  intros Hs Hf. unfold extracted, after. rewrite Hs.
  by rewrite (find_fence_None_json _ Hf), Hf.
Qed.

End CandidateFacts.

Import PieceFacts CandidateFacts.

(** X1.  The text handed to the JSON parser never holds a fence
    marker, tagged or not, whatever the response text was. *)
Theorem candidate_fence_free (text : str) :
  ∃ c, content_str text = inr c
     ∧ contains fence c = false ∧ contains fence_json c = false.
Proof.
  exists (extracted text). split; [apply content_str_extracted|].
  pose proof (extracted_fence_free text) as Hf.
  rewrite !contains_false. split; [done|]. by apply find_fence_None_json.
Qed.

(** X2.  The text handed to the parser is a contiguous piece of the
    response text, with no whitespace at either end; so it is never
    longer than the response text. *)
Theorem candidate_is_trimmed_piece (text : str) :
  ∃ c, content_str text = inr c
     ∧ piece c text ∧ strip c = c ∧ length c ≤ length text.
Proof.
  exists (extracted text). split; [apply content_str_extracted|].
  split; [apply extracted_piece|]. split; [apply extracted_trimmed|].
  apply piece_length, extracted_piece.
Qed.

(** X3.  When the trimmed response text holds a fence marker
    anywhere, also inside a JSON string, the parser is not handed the
    whole text: the candidate is at least three characters shorter
    than the trimmed text. *)
Theorem candidate_shorter_when_fenced (text c : str) :
  contains fence (strip text) = true →
  content_str text = inr c →
  length c + 3 ≤ length (strip text).
Proof.
  intros Hf Hc. rewrite content_str_extracted in Hc. injection Hc as <-.
  destruct (extracted_cases text) as [(x & -> & _ & Hl & _) | [_ Hno]].
  - pose proof (piece_length _ _ (piece_strip (upto fence x))).
    pose proof (piece_length _ _ (piece_upto fence x)). lia.
  - apply contains_false in Hno. congruence.
Qed.

(** X4.  Fence stripping is idempotent and sees the response text
    only through its trimmed form: stripping the candidate again, or
    stripping the trimmed text, gives the same candidate. *)
Theorem candidate_idempotent (text : str) :
  ∃ c, content_str text = inr c
     ∧ content_str c = inr c
     ∧ content_str (strip text) = inr c.
Proof.
  exists (extracted text). rewrite !content_str_extracted.
  split; [done|]. split; f_equal.
  - apply extracted_plain; [apply extracted_trimmed | apply extracted_fence_free].
  - unfold extracted. by rewrite strip_idemp.
Qed.

(** ** The [try] block at its edges (lines 201-222) *)

(** X5.  A final event whose text is empty or whitespace only (no
    content, no parts, a first part without text) is answered with
    the malformed-JSON envelope with an empty [raw_content], the
    parser refusing the empty text. *)
Theorem blank_text_is_malformed `{PyLib} (event : Event) (e : Exc) :
  is_final_response event = true →
  strip (response_text event) = [] →
  json_loads [] = inl e → exc_class e = JSONDecodeError →
  on_event event =
    inr (Complete (json_dumps None (JDict
      [ (lit "error",
         JStr (lit "Failed to generate structured weather forecast"));
        (lit "raw_content", JStr []) ]))).
Proof.
  intros Hf Hblank Hv He.
  assert (extracted (response_text event) = []) as Hc.
  { unfold extracted. by rewrite Hblank. }
  by rewrite on_event_final, Hc, (final_response_malformed _ e).
Qed.

(** X6.  An exception of the parser that is no [JSONDecodeError]
    (a [ValueError] for an integer beyond the digit limit, a
    [RecursionError]) is caught by the second [except] clause: the
    answer is the validation-failure envelope with the text of that
    exception, not the malformed-JSON envelope. *)
Theorem other_parser_errors_are_validation_failures `{PyLib}
    (event : Event) (c : str) (e : Exc) :
  is_final_response event = true →
  content_str (response_text event) = inr c →
  json_loads c = inl e → exc_class e ≠ JSONDecodeError →
  on_event event =
    inr (Complete (json_dumps None (JDict
      [ (lit "error", JStr (lit "Validation failed: " ++ exc_str e)) ]))).
Proof.
  intros Hf Hc Hv He. rewrite content_str_extracted in Hc.
  injection Hc as <-. rewrite on_event_final by done.
  unfold final_response, try_body. rewrite Hv. simpl.
  by rewrite decide_False.
Qed.

(** ** The models (lines 45-63) *)

Module ModelFacts.
Import Spec.

Section WithLib.
Context `{PyLib}.

Lemma ap_inr {A B} (f : V (A → B)) (x : V A) b :
  ap f x = inr b → ∃ g a, f = inr g ∧ x = inr a ∧ b = g a.
Proof. destruct f, x; simpl; try done. intros [= <-]. eauto. Qed.

Lemma field_inr {A} name (schema : JSON → V A) kw a :
  field name schema kw = inr a → ∃ x, has kw name x ∧ schema x = inr a.
Proof.
  unfold field, has. destruct (dict_get (lit name) kw) as [x|]; [|done].
  intros Hx. exists x. split; [done|]. by destruct (schema x).
Qed.

Lemma scalar_inr {A} (validator : JSON → str + A) x a :
  scalar validator x = inr a → validator x = inr a.
Proof. unfold scalar. destruct (validator x); [done|]. by intros [= <-]. Qed.

Lemma list_items_inr {A} (item : JSON → V A) i l r :
  list_items item i l = inr r → Forall2 (λ x a, item x = inr a) l r.
Proof.
  revert i r. induction l as [|x l IH]; intros i r; cbn [list_items].
  - intros [= <-]. constructor.
  - intros (g & r' & Hg & Hr' & ->)%ap_inr.
    apply ap_inr in Hg as (g' & a & [= <-] & Ha & ->).
    constructor; [|by eapply IH].
    unfold at_loc in Ha. destruct (item x); [done|]. by injection Ha as ->.
Qed.

Lemma list_schema_inr {A} (item : JSON → V A) x r :
  list_schema item x = inr r →
  ∃ l, x = JList l ∧ Forall2 (λ y a, item y = inr a) l r.
Proof.
  destruct x; try done. simpl. intros Hl. eexists. split; [done|].
  by eapply list_items_inr.
Qed.


End WithLib.
End ModelFacts.

Import ModelFacts.

(** X7.  The dump of a StructuredWeather value validates again, to
    the same value: [model_dump] and the constructor are a round
    trip. *)
Theorem model_dump_validates `{PyLib} (w : StructuredWeather) :
  StructuredWeather_init (model_dump w) = inr w.
Proof. apply StructuredWeather_init_ok, model_dump_json. Qed.


(** X9.  A value the constructor accepts is an object that holds the
    four fields; its [forecast] and [bestDays] are lists, and the
    result holds, position by position, what the validators made of
    their elements: no element is dropped, added or moved. *)
Theorem accepted_value_structure `{PyLib} (v : JSON) (w : StructuredWeather) :
  StructuredWeather_init v = inr w →
  ∃ kw d fs a bs,
    v = JDict kw
    ∧ Spec.has kw "destination" d ∧ str_validator d = inr (destination w)
    ∧ Spec.has kw "forecast" (JList fs)
    ∧ Forall2 (λ x day, DailyWeather_schema x = inr day) fs (forecast w)
    ∧ Spec.has kw "travelAdvice" a ∧ str_validator a = inr (travelAdvice w)
    ∧ Spec.has kw "bestDays" (JList bs)
    ∧ Forall2 (λ x z, int_validator x = inr z) bs (bestDays w).
Proof.
  unfold StructuredWeather_init. destruct v; try done.
  destruct (StructuredWeather_kwargs kw) as [es|w'] eqn:Hk; [done|].
  intros [= ->]. unfold StructuredWeather_kwargs in Hk.
  apply ap_inr in Hk as (g4 & bs' & Hk & Hb & ->).
  apply ap_inr in Hk as (g3 & a' & Hk & Ha & ->).
  apply ap_inr in Hk as (g2 & fs' & Hk & Hf & ->).
  apply ap_inr in Hk as (g1 & d' & [= <-] & Hd & ->).
  apply field_inr in Hd as (d & Hd & Hdv%scalar_inr).
  apply field_inr in Ha as (a & Ha & Hav%scalar_inr).
  apply field_inr in Hf as (f & Hf & (fs & -> & Hfs)%list_schema_inr).
  apply field_inr in Hb as (b & Hb & (bs & -> & Hbs)%list_schema_inr).
  exists kw, d, fs, a, bs. simpl. repeat (split; [done|]).
  eapply Forall2_impl; [exact Hbs|]. intros x z Hx. by apply scalar_inr.
Qed.

(** ** The two bridges on any run (lines 174-233 and 287-295) *)

Module RunFacts.

Section WithLib.
Context `{PyLib}.

Lemma first_complete_Complete content (its : list Item) :
  first_complete (Complete content :: its) = Some content.
Proof. done. Qed.

Lemma first_complete_Progress updates (its : list Item) :
  first_complete (Progress updates :: its) = first_complete its.
Proof.
  unfold first_complete. simpl.
  by destruct (list_find _ its) as [[i it]|].
Qed.

(** The loop of [execute] ends with the content of the first complete
    item of the run, or with the content it started from. *)
Lemma drain_first_complete_of_items (pending : list Event) its final_content :
  items pending = inr its →
  ∃ rest, drain pending final_content
          = inr (default final_content (first_complete its), rest).
Proof.
  revert its. induction pending as [|e pending IH]; intros its; simpl.
  - intros [= <-]. eauto.
  - destruct (on_event e) as [?|it]; [done|]. simpl.
    destruct (items pending) as [?|more]; [done|]. simpl.
    intros [= <-]. destruct it as [u|c].
    + rewrite first_complete_Progress. by apply IH.
    + rewrite first_complete_Complete. eauto.
Qed.

Lemma items_returns (pending : list Event) : ∃ its, items pending = inr its.
Proof.
  induction pending as [|e pending (more & IH)]; simpl; [eauto|].
  destruct (on_event_returns e) as (it & ->). simpl. rewrite IH. simpl. eauto.
Qed.

End WithLib.
End RunFacts.

Import RunFacts.

(** X10.  On any run, with several final events or none, the
    generator never raises and yields one item per event, in order:
    a complete item for a final event, and for any other event the
    progress item with the fixed message. *)
Theorem one_item_per_event `{PyLib} (pending : list Event) :
  ∃ its, items pending = inr its
    ∧ Forall2 (λ e it, is_task_complete it = is_final_response e)
        pending its
    ∧ Forall (λ it, is_task_complete it = false →
                    it = Progress get_processing_message) its.
Proof.
  induction pending as [|e pending (more & Hmore & Hall & Hmsg)]; simpl.
  - exists []. repeat constructor.
  - rewrite Hmore. destruct (is_final_response e) eqn:Hf.
    + rewrite on_event_final by done. simpl. eexists. split; [done|].
      split; constructor; done.
    + rewrite on_event_progress by done. simpl. eexists. split; [done|].
      split; constructor; done.
Qed.

(** X11.  The message [execute] sends is the content of the first
    complete item among the items the generator yields for the run,
    and the empty string when there is none. *)
Theorem execute_sends_first_complete `{PyLib}
    (run_async : str → str → str → list Event) (context : RequestContext)
    (queue : list Message) (store : gmap str Session) :
  ∃ out its,
    execute run_async context queue store = inr out
    ∧ items (stream run_async (get_user_input context)
               (default (lit "default_session") (context_id context))
               store).2 = inr its
    ∧ event_queue out
      = queue ++ [new_agent_text_message (default [] (first_complete its))].
Proof.
  unfold execute.
  destruct (stream run_async _ _ store) as [store' pending] eqn:Hs.
  destruct (items_returns pending) as (its & Hits).
  destruct (drain_first_complete_of_items pending its [] Hits) as (rest & Hd).
  rewrite Hd. simpl. eauto.
Qed.

(** X12.  When the run ends without a final event, or is empty,
    [execute] still sends one message; its body is empty and every
    event has been read. *)
Theorem execute_without_final_event `{PyLib}
    (run_async : str → str → str → list Event) (context : RequestContext)
    (queue : list Message) (store : gmap str Session) :
  Forall (λ e, is_final_response e = false)
    (stream run_async (get_user_input context)
       (default (lit "default_session") (context_id context)) store).2 →
  ∃ out, execute run_async context queue store = inr out
    ∧ event_queue out = queue ++ [new_agent_text_message []]
    ∧ unread out = [].
Proof.
  unfold execute.
  destruct (stream run_async _ _ store) as [store' pending] eqn:Hs.
  simpl. intros Hall.
  rewrite (drain_no_complete pending []).
  - simpl. eauto.
  - eapply Forall_impl; [exact Hall|]. intros e He. by apply incomplete_iff.
Qed.

(** ** The session store (lines 152-178) *)




(** ** Start-up (lines 304-328) *)



(** ** The further theorems at concrete inputs *)

(** X3 at the untagged block of [Examples.generic_text]. *)
Lemma candidate_shorter_when_fenced_witness :
  length (lit "{}") + 3 ≤ length (strip Examples.generic_text).
Proof.
  refine (candidate_shorter_when_fenced Examples.generic_text (lit "{}") _ _).
  - vm_compute. reflexivity.
  - vm_compute. reflexivity.
Defined.

(** X5 at a final event without content. *)
Lemma blank_text_is_malformed_witness :
  @on_event Reference.lib Inputs.silent_event
  = inr (Complete (Examples.dq
      "{'error': 'Failed to generate structured weather forecast', 'raw_content': ''}")).
Proof.
  refine (@blank_text_is_malformed Reference.lib Inputs.silent_event
            (Raise JSONDecodeError (lit "Expecting value")) _ _ _ _).
  - reflexivity.
  - reflexivity.
  - reflexivity.
  - reflexivity.
Defined.

(** X6 at an answer that is one integer of 4301 digits. *)
Lemma other_parser_errors_are_validation_failures_witness :
  @on_event DigitLimit.lib
    (Examples.final_event [Some Inputs.long_int_text])
  = inr (Complete (Reference.dumps None (JDict
      [ (lit "error",
         JStr (lit "Validation failed: Exceeds the limit (4300 digits) for integer string conversion: value has 4301 digits; use sys.set_int_max_str_digits() to increase the limit")) ]))).
Proof.
  refine (@other_parser_errors_are_validation_failures DigitLimit.lib
            (Examples.final_event [Some Inputs.long_int_text])
            Inputs.long_int_text
            (Raise ValueError (lit "Exceeds the limit (4300 digits) for integer string conversion: value has 4301 digits; use sys.set_int_max_str_digits() to increase the limit"))
            _ _ _ _).
  - reflexivity.
  - vm_compute. reflexivity.
  - vm_compute. reflexivity.
  - discriminate.
Defined.


(** X9 at the Tokyo object. *)
Lemma accepted_value_structure_witness :
  ∃ kw d fs a bs,
    model_dump Examples.tokyo = JDict kw
    ∧ Spec.has kw "destination" d
    ∧ @str_validator Reference.lib d = inr (lit "Tokyo")
    ∧ Spec.has kw "forecast" (JList fs)
    ∧ Forall2 (λ x day, @DailyWeather_schema Reference.lib x = inr day)
        fs [Examples.tokyo_day]
    ∧ Spec.has kw "travelAdvice" a
    ∧ @str_validator Reference.lib a = inr (lit "Pack light")
    ∧ Spec.has kw "bestDays" (JList bs)
    ∧ Forall2 (λ x z, @int_validator Reference.lib x = inr z) bs [1%Z].
Proof.
  refine (@accepted_value_structure Reference.lib
            (model_dump Examples.tokyo) Examples.tokyo _).
  vm_compute. reflexivity.
Defined.

(** X12 at a run of two interim events. *)
Lemma execute_without_final_event_witness :
  ∃ out,
    @execute Reference.lib Inputs.endless_run
      {| get_user_input := lit "Weather in Tokyo?"; context_id := None |}
      [] ∅ = inr out
    ∧ event_queue out = [new_agent_text_message []]
    ∧ unread out = [].
Proof.
  refine (@execute_without_final_event Reference.lib Inputs.endless_run
            {| get_user_input := lit "Weather in Tokyo?";
               context_id := None |} [] ∅ _).
  repeat constructor.
Defined.



